(** * wasm-studio-utils: the [Service] class of [src/service.ts]

    A shallow embedding of the compile dispatcher, the artifact
    resolution, the lazily loaded engines, the post-processors and the
    project deserializer, and the properties the specification states
    about them.

    JavaScript objects used as maps are [gmap string _]; the file store
    and the global namespace are explicit state; the network and the
    engines are external collaborators, collected in [Env]; an [async]
    function is a state transformer returning the outcome its promise
    settles with. *)

From Stdlib Require Import Ascii.
From stdpp Require Import gmap strings list fin_maps.

Set Warnings "-register-all".

(** ** JavaScript values and outcomes *)

(** The values that flow through [service.ts] as file contents and
    compile outputs: [string | ArrayBuffer], or nothing. *)
Inductive JsVal :=
  | JUndefined
  | JNull
  | JStr (s : string)
  | JBuf (b : list Byte.byte).

#[global] Instance byte_eq_dec : EqDecision Byte.byte.
Proof.
  intros x y. destruct (Byte.eqb x y) eqn:E.
  - left. by apply Byte.byte_dec_bl.
  - right. intros ->. by rewrite Byte.byte_dec_lb in E.
Defined.

#[global] Instance JsVal_eq_dec : EqDecision JsVal.
Proof. solve_decision. Defined.

(** JavaScript truthiness, as tested by [if (content)] and
    [if (json.data)]: [undefined], [null] and the empty string are falsy;
    every non-empty string and every object (an [ArrayBuffer] of any
    length) is truthy. *)
Definition truthy (v : JsVal) : bool :=
  match v with
  | JUndefined | JNull => false
  | JStr s => negb (String.eqb s EmptyString)
  | JBuf _ => true
  end.

(** Property read [o[k]] on an object: a missing key reads [undefined]. *)
Definition jsget (o : gmap string JsVal) (k : string) : JsVal :=
  default JUndefined (o !! k).

(** The outcome a call (or the promise it returns) settles with. *)
Inductive Res (A : Type) :=
  | Ok (a : A)
  | Throw (msg : string).
Arguments Ok {A} a.
Arguments Throw {A} msg.

Definition is_ok {A} (r : Res A) : bool :=
  match r with Ok _ => true | Throw _ => false end.

(** ** Languages and file types

    Modelled from the spec: [Language] and [FileType] are string enums
    declared in [./compilerServices] and [./model]; the README passes
    them as the strings ["cpp"], ["wasm"], ["javascript"]. *)
Definition Language := string.
Definition Language_Wasm : Language := "wasm".

Definition FileType := string.
Definition FileType_Wat : FileType := "wat".
Definition FileType_Wasm : FileType := "wasm".
Definition FileType_JavaScript : FileType := "javascript".

(** ** The compile protocol *)

(** One entry of [input.files]: [{ content: f.getData() }]. *)
Record InputFile := { in_content : JsVal }.

(** The request envelope built by [compileFiles]. *)
Record CompileInput := {
  in_files : gmap string InputFile;
  in_options : string
}.

(** One entry of [result.items]: [{ content?: string | ArrayBuffer }]. *)
Record Item := { content : JsVal }.

Record CompileResult := {
  success : bool;
  console : string;
  items : gmap string Item
}.

(** A compiler service: its [compile] method, which posts the envelope
    and settles with the backend's answer (or rejects). *)
Record CompilerService := {
  compile : CompileInput -> Res CompileResult
}.

(** ** Engines

    The three engines are opaque. [readWasm ... toText] and
    [parseWat ... toBinary] are the call chains of [disassembleWasm] and
    [assembleWat]; a [BinaryenModule] is the declared interface. *)
Record BinaryenModule := {
  emitText : Res string;
  emitAsmjs : Res string
}.

Record Engine := {
  (* readWasm(buffer, {readDebugNames}); generateNames; applyNames; toText *)
  wabt_disassemble : JsVal -> Res string;
  (* parseWat("test.wat", wat); resolveNames; validate; toBinary(...).buffer *)
  wabt_assemble : JsVal -> Res JsVal;
  (* Binaryen.readBinary(data) *)
  readBinary : JsVal -> Res BinaryenModule;
  (* new Converter({tables: true}); setFlavor("github"); makeHtml(src) *)
  showdown_makeHtml : string -> Res string
}.

(** A value bound in the global namespace: an engine, or [undefined]. *)
Inductive GVal :=
  | GUndef
  | GEngine (e : Engine).

(** ** Observable interactions *)
Inductive Event :=
  | EvCompile (from to : Language) (input : CompileInput)
  | EvFetch (url : string)
  | EvEval (code : string).

(** ** The file store

    Modelled from the spec: [File] and [Directory] are classes of
    [./model]. A file has a name, a type tag, a description and content;
    the store adds the parent link that [addFile]/[newFile] maintain. *)
Record File := {
  name : string;
  type : option FileType;
  description : option string;
  data : JsVal
}.

Definition setData (v : JsVal) (f : File) : File :=
  {| name := name f; type := type f; description := description f; data := v |}.

Definition setDescription (d : option string) (f : File) : File :=
  {| name := name f; type := type f; description := d; data := data f |}.

(** [new File(name, type)]: no description, no content yet. *)
Definition newFileObj (n : string) (t : option FileType) : File :=
  {| name := n; type := t; description := None; data := JNull |}.

Record FileObj := {
  file : File;
  parent : option nat
}.

(** What the dispatcher reads of a source file: the results of
    [getPath()] and [getData()] (the path is derived by [./model] from
    the chain of parent directories). *)
Record SourceFile := {
  getPath : string;
  getData : JsVal
}.

Record DirObj := {
  dname : string;
  dchildren : list nat
}.

Record State := {
  trace : list Event;
  globals : gmap string GVal;
  files : gmap nat FileObj;
  dirs : gmap nat DirObj
}.

(** ** External collaborators *)
Record Env := {
  (* createCompilerService(from, to), of ./compilerServices *)
  createCompilerService : Language -> Language -> Res CompilerService;
  (* fetch(url) followed by .text() *)
  fetch_text : string -> Res string;
  (* new Function(body)() : the values of the listed exports *)
  run_code : string -> Res (list GVal)
}.

(** ** The monad of [async] functions: state passing with exceptions.
    A throw keeps the state reached so far. *)
Definition M (A : Type) := State -> Res A * State.

Definition ret {A} (a : A) : M A := fun st => (Ok a, st).
Definition throw {A} (msg : string) : M A := fun st => (Throw msg, st).
Definition bind {A B} (m : M A) (k : A -> M B) : M B :=
  fun st => match m st with
            | (Ok a, st') => k a st'
            | (Throw e, st') => (Throw e, st')
            end.
Definition lift {A} (r : Res A) : M A := fun st => (r, st).
Definition emit (e : Event) : M unit :=
  fun st => (Ok tt, {| trace := trace st ++ [e]; globals := globals st;
                       files := files st; dirs := dirs st |}).

Notation "'do' x <- m ; k" := (bind m (fun x => k))
  (at level 10, x name, m at level 100, k at level 200).
Notation "'run' m ; k" := (bind m (fun _ => k))
  (at level 10, m at level 100, k at level 200).

(** ** The compilation dispatcher *)

Definition dquote : string := String "034"%char EmptyString.

(** The assignment [o[k] = v] on an object created by [{}], as a change
    of its own entries. The name "__proto__" is an accessor of
    [Object.prototype]: its setter makes [v] the prototype of [o] when
    [v] is an object, does nothing otherwise, and creates no own entry
    in either case; every other name gets an own entry. The maps of this
    development hold the own entries, which are what [Object.entries]
    and [JSON.stringify] see; the prototype is not part of them. *)
Definition js_assign {A} (o : gmap string A) (k : string) (v : A)
    : gmap string A :=
  if String.eqb k "__proto__" then o else <[k := v]> o.

(** [files.reduce((acc, f) => { acc[f.getPath()] = {content: f.getData()};
    return acc; }, {})] *)
Definition input_files (fs : list SourceFile) : gmap string InputFile :=
  foldl (fun acc f => js_assign acc (getPath f) {| in_content := getData f |})
        ∅ fs.

(** The loop over [Object.entries(result.items)]. *)
Definition outputFiles (its : gmap string Item) : gmap string JsVal :=
  map_fold (fun name item acc =>
              if truthy (content item) then js_assign acc name (content item)
              else acc) ∅ its.

Definition compileFiles (env : Env) (fs : list SourceFile)
    (from to : Language) (options : string) : M (gmap string JsVal) :=
  do service <- lift (createCompilerService env from to);
  let input := {| in_files := input_files fs; in_options := options |} in
  run emit (EvCompile from to input);
  do result <- lift (compile service input);
  if negb (success result) then throw (console result)
  else ret (outputFiles (items result)).

Definition expectedOutputFilename : string := "a.wasm".
Definition expectedWasmBindgenJsFilename : string := "wasm_bindgen.js".

Definition unsupported_target (to : Language) : string :=
  "Only wasm target is supported, but " +:+ dquote +:+ to +:+ dquote
  +:+ " was found".

Definition compileFileWithBindings (env : Env) (f : SourceFile)
    (from to : Language) (options : string) : M (gmap string JsVal) :=
  if negb (String.eqb to Language_Wasm) then throw (unsupported_target to)
  else
    do result <- compileFiles env [f] from to options;
    let output : gmap string JsVal :=
      {[ "wasm" := jsget result expectedOutputFilename ]} in
    let output :=
      if truthy (jsget result expectedWasmBindgenJsFilename)
      then <["wasmBindgenJs" := jsget result expectedWasmBindgenJsFilename]> output
      else output in
    ret output.

Definition compileFile (env : Env) (f : SourceFile)
    (from to : Language) (options : string) : M JsVal :=
  do result <- compileFileWithBindings env f from to options;
  ret (jsget result "wasm").

(** ** Lazily loaded engines *)

Definition newline : string := String "010"%char EmptyString.

Definition baseUrl : string := "https://webassembly.studio/".

(** The [switch (uri)] of [lazyLoad]; [None] is its [default] branch. *)
Definition lazyLoad_exports (uri : string) : option (list string) :=
  if String.eqb uri "lib/libwabt.js" then Some ["wabt"]
  else if String.eqb uri "lib/showdown.min.js" then Some ["showdown"]
  else if String.eqb uri "lib/binaryen.js" then Some ["Binaryen"]
  else None.

(** [exports.forEach((e, i) => global[e] = exportsObjs[i])] *)
Definition bind_exports (exports : list string) (objs : list GVal)
    (g : gmap string GVal) : gmap string GVal :=
  foldl (fun g ie => <[ie.2 := default GUndef (objs !! ie.1)]> g) g
        (imap pair exports).

Definition set_globals (f : gmap string GVal -> gmap string GVal) : M unit :=
  fun st => (Ok tt, {| trace := trace st; globals := f (globals st);
                       files := files st; dirs := dirs st |}).

Definition lazyLoad (env : Env) (uri : string) : M unit :=
  match lazyLoad_exports uri with
  | None => throw ("Unknow lazyLoad uri: " +:+ uri)
  | Some exports =>
      run emit (EvFetch (baseUrl +:+ uri));
      do res <- lift (fetch_text env (baseUrl +:+ uri));
      let body := res +:+ newline +:+ "return [" +:+
                  String.concat "," exports +:+ "];" in
      run emit (EvEval body);
      do exportsObjs <- lift (run_code env body);
      set_globals (bind_exports exports exportsObjs)
  end.

(** [typeof x === "undefined"] for a global [x]. *)
Definition typeof_undefined (x : string) : M bool :=
  fun st => (Ok match globals st !! x with
                | Some (GEngine _) => false
                | _ => true
                end, st).

(** Using the global [x] as an engine; a member access on [undefined]
    is a [TypeError]. *)
Definition type_error : string := "TypeError: cannot read properties of undefined".

Definition engine (x : string) : M Engine :=
  fun st => match globals st !! x with
            | Some (GEngine e) => (Ok e, st)
            | _ => (Throw type_error, st)
            end.

(** [if (typeof x === "undefined") { await Service.lazyLoad(uri); }] *)
Definition ensure (env : Env) (x uri : string) : M unit :=
  do u <- typeof_undefined x;
  if u then lazyLoad env uri else ret tt.

(** ** The file store's operations *)

(** Reading a field of the file object [r]. *)
Definition file_get {A} (r : nat) (g : FileObj -> A) : M A :=
  fun st => match files st !! r with
            | Some fo => (Ok (g fo), st)
            | None => (Throw type_error, st)
            end.

(** Writing a field of the file object [r] in place. *)
Definition file_set (r : nat) (g : File -> File) : M unit :=
  fun st => (Ok tt,
             {| trace := trace st; globals := globals st;
                files := alter (fun fo => {| file := g (file fo);
                                             parent := parent fo |}) r (files st);
                dirs := dirs st |}).

(** Modelled from the spec: [Directory.newFile(name, type)], of
    [./model], creates a new file object, attaches it as the last child
    of the directory and returns it. *)
Definition newFile (d : nat) (n : string) (t : FileType) : M nat :=
  fun st => match dirs st !! d with
            | None => (Throw type_error, st)
            | Some dobj =>
                let r := fresh (dom (files st)) in
                (Ok r,
                 {| trace := trace st; globals := globals st;
                    files := <[r := {| file := newFileObj n (Some t);
                                       parent := Some d |}]> (files st);
                    dirs := <[d := {| dname := dname dobj;
                                      dchildren := dchildren dobj ++ [r] |}]>
                              (dirs st) |})
            end.

(** [file.parent.newFile(name, type)] *)
Definition parent_newFile (r : nat) (n : string) (t : FileType) : M nat :=
  do p <- file_get r parent;
  match p with
  | Some d => newFile d n t
  | None => throw type_error
  end.

(** ** The post-processors *)

Definition disassembleWasm (env : Env) (buffer : JsVal) : M string :=
  run ensure env "wabt" "lib/libwabt.js";
  do wabt <- engine "wabt";
  lift (wabt_disassemble wabt buffer).

Definition disassembleWasmWithWabt (env : Env) (f : nat) : M unit :=
  do buffer <- file_get f (fun fo => data (file fo));
  do result <- disassembleWasm env buffer;
  do fname <- file_get f (fun fo => name (file fo));
  do output <- parent_newFile f (fname +:+ ".wat") FileType_Wat;
  run file_set output
        (setDescription (Some ("Disassembled from " +:+ fname +:+ " using Wabt.")));
  file_set output (setData (JStr result)).

Definition assembleWat (env : Env) (wat : JsVal) : M JsVal :=
  run ensure env "wabt" "lib/libwabt.js";
  do wabt <- engine "wabt";
  lift (wabt_assemble wabt wat).

Definition assembleWatWithWabt (env : Env) (f : nat) : M unit :=
  do wat <- file_get f (fun fo => data (file fo));
  do result <- assembleWat env wat;
  do fname <- file_get f (fun fo => name (file fo));
  do output <- parent_newFile f (fname +:+ ".wasm") FileType_Wasm;
  run file_set output
        (setDescription (Some ("Assembled from " +:+ fname +:+ " using Wabt.")));
  file_set output (setData result).

Definition disassembleWasmWithBinaryen (env : Env) (f : nat) : M unit :=
  run ensure env "Binaryen" "lib/binaryen.js";
  do d <- file_get f (fun fo => data (file fo));
  do binaryen <- engine "Binaryen";
  do module <- lift (readBinary binaryen d);
  do fname <- file_get f (fun fo => name (file fo));
  do output <- parent_newFile f (fname +:+ ".wat") FileType_Wat;
  run file_set output
        (setDescription (Some ("Disassembled from " +:+ fname +:+ " using Binaryen.")));
  do text <- lift (emitText module);
  file_set output (setData (JStr text)).

Definition convertWasmToAsmWithBinaryen (env : Env) (f : nat) : M unit :=
  run ensure env "Binaryen" "lib/binaryen.js";
  do d <- file_get f (fun fo => data (file fo));
  do binaryen <- engine "Binaryen";
  do module <- lift (readBinary binaryen d);
  do result <- lift (emitAsmjs module);
  do fname <- file_get f (fun fo => name (file fo));
  do output <- parent_newFile f (fname +:+ ".asm.js") FileType_JavaScript;
  run file_set output
        (setDescription (Some ("Converted from " +:+ fname +:+ " using Binaryen.")));
  file_set output (setData (JStr result)).

Definition compileMarkdownToHtml (env : Env) (src : string) : M string :=
  run ensure env "showdown" "lib/showdown.min.js";
  do showdown <- engine "showdown";
  lift (showdown_makeHtml showdown src).

(** ** The project deserializer *)

(** A node of the JSON tree ([interface IFile]); [idata] is [undefined]
    when the field is missing, [null] or a string otherwise. *)
Inductive IFile := mkIFile {
  iname : string;
  ichildren : option (list IFile);
  itype : option FileType;
  idata : JsVal;
  idescription : option string
}.

(** The tree that [deserialize] builds. *)
Inductive Node :=
  | NFile (f : File)
  | NDir (n : string) (kids : list Node).

Definition node_name (x : Node) : string :=
  match x with NFile f => name f | NDir n _ => n end.

(** Modelled from the spec: [new Directory(name)] has no children and
    [addFile] attaches a node after the children already there. *)
Record Directory := {
  dir_name : string;
  dir_children : list Node
}.

Definition newDirectory (n : string) : Directory :=
  {| dir_name := n; dir_children := [] |}.

Definition addFile (d : Directory) (x : Node) : Directory :=
  {| dir_name := dir_name d; dir_children := dir_children d ++ [x] |}.

(** *** [Promise.all]

    The promises of an array settle in some order, chosen by the
    scheduler: the indices listed in [sched] first, every other one
    afterwards. Each fulfilment stores its value at the promise's index;
    the first rejection rejects the whole. *)
Definition completion_order (n : nat) (sched : list nat) : list nat :=
  let first := remove_dups (filter (fun i => i < n) sched) in
  first ++ filter (fun i => i ∉ first) (seq 0 n).

Fixpoint settle {A} (slots : list (option A)) (done : list (nat * Res A))
    : Res (list (option A)) :=
  match done with
  | [] => Ok slots
  | (i, Ok v) :: rest => settle (<[i := Some v]> slots) rest
  | (_, Throw e) :: _ => Throw e
  end.

Definition promise_all {A} (sched : list nat) (ps : list (Res A))
    : Res (list A) :=
  let done := omap (fun i => pair i <$> ps !! i)
                   (completion_order (length ps) sched) in
  match settle (replicate (length ps) None) done with
  | Ok slots => Ok (omap id slots)
  | Throw e => Throw e
  end.

(** [json.map(x => deserialize(x, basePath))]: every call runs up to its
    first suspension, in index order, whatever the others settle with. *)
Fixpoint start_all {A B} (f : A -> M B) (l : list A) (st : State)
    : list (Res B) * State :=
  match l with
  | [] => ([], st)
  | x :: rest =>
      let '(o, st1) := f x st in
      let '(os, st2) := start_all f rest st1 in
      (o :: os, st2)
  end.

Section Deserialize.

Variable env : Env.
(** The order in which the promises of a sibling array settle. *)
Variable sched : list IFile -> list nat.

Fixpoint deserialize (json : IFile) (basePath : string) : M Node :=
  match ichildren json with
  | Some cs =>
      fun st =>
        let '(outs, st') :=
          start_all (fun x => deserialize x (basePath +:+ "/" +:+ iname json))
                    cs st in
        (match promise_all (sched cs) outs with
         | Ok fs => let directory := foldl addFile (newDirectory (iname json)) fs in
                    Ok (NDir (dir_name directory) (dir_children directory))
         | Throw e => Throw e
         end, st')
  | None =>
      let file := setDescription (idescription json)
                    (newFileObj (iname json) (itype json)) in
      if truthy (idata json) then
        ret (NFile (setData (idata json) file))
      else if decide (idata json = JNull) then
        ret (NFile (setData (JStr EmptyString) file))
      else
        run emit (EvFetch (basePath +:+ "/" +:+ iname json));
        do text <- lift (fetch_text env (basePath +:+ "/" +:+ iname json));
        ret (NFile (setData (JStr text) file))
  end.

(** The [Array.isArray(json)] branch. *)
Definition deserialize_array (json : list IFile) (basePath : string)
    : M (list Node) :=
  fun st =>
    let '(outs, st') := start_all (fun x => deserialize x basePath) json st in
    (promise_all (sched json) outs, st').

End Deserialize.

(** *** [loadProject] *)

(** The top-level JSON object: [json.name], [json.directory] and
    [json.children]. *)
Record ProjectJson := {
  pj_name : string;
  pj_directory : string;
  pj_children : list IFile
}.

(** Modelled from the spec: a [Project] is the root directory. *)
Record Project := {
  project_name : string;
  project_children : list Node
}.

Definition project_addFile (p : Project) (x : Node) : Project :=
  {| project_name := project_name p;
     project_children := project_children p ++ [x] |}.

(** [project.name] is assigned before the first suspension, so the
    project is renamed even when the deserialization rejects. *)
Definition loadProject (env : Env) (sched : list IFile -> list nat)
    (json : ProjectJson) (project : Project) (st : State)
    : Res ProjectJson * Project * State :=
  let project1 := {| project_name := pj_name json;
                     project_children := project_children project |} in
  match deserialize_array env sched (pj_children json)
          ("templates/" +:+ pj_directory json) st with
  | (Ok fs, st') => (Ok json, foldl project_addFile project1 fs, st')
  | (Throw e, st') => (Throw e, project1, st')
  end.

(** ** Capabilities and the operations that require them *)

Inductive Capability := Wabt | Showdown | Binaryen.

#[global] Instance Capability_eq_dec : EqDecision Capability.
Proof. solve_decision. Defined.

(** The global name an engine is bound to, and the uri it is loaded
    from. *)
Definition cap_global (c : Capability) : string :=
  match c with Wabt => "wabt" | Showdown => "showdown" | Binaryen => "Binaryen" end.

Definition cap_uri (c : Capability) : string :=
  match c with
  | Wabt => "lib/libwabt.js"
  | Showdown => "lib/showdown.min.js"
  | Binaryen => "lib/binaryen.js"
  end.

(** The engine bound to [x] is loaded: [typeof x !== "undefined"]. *)
Definition is_loaded (x : string) (st : State) : bool :=
  match globals st !! x with
  | Some (GEngine _) => true
  | _ => false
  end.

(** The interactions of a load of [c]: the fetch of its resource and the
    evaluation of the fetched text, followed by the export of its name. *)
Definition load_event (c : Capability) (e : Event) : Prop :=
  match e with
  | EvFetch url => url = baseUrl +:+ cap_uri c
  | EvEval body => exists res, body = res +:+ newline +:+ "return [" +:+
                                     cap_global c +:+ "];"
  | EvCompile _ _ _ => False
  end.

Inductive Op :=
  | OpDisassembleWasm (buffer : JsVal)
  | OpDisassembleWasmWithWabt (f : nat)
  | OpAssembleWat (wat : JsVal)
  | OpAssembleWatWithWabt (f : nat)
  | OpDisassembleWasmWithBinaryen (f : nat)
  | OpConvertWasmToAsmWithBinaryen (f : nat)
  | OpCompileMarkdownToHtml (src : string).

Definition op_capability (op : Op) : Capability :=
  match op with
  | OpDisassembleWasm _ | OpDisassembleWasmWithWabt _
  | OpAssembleWat _ | OpAssembleWatWithWabt _ => Wabt
  | OpDisassembleWasmWithBinaryen _ | OpConvertWasmToAsmWithBinaryen _ => Binaryen
  | OpCompileMarkdownToHtml _ => Showdown
  end.

Definition void {A} (m : M A) : M unit := do _ <- m; ret tt.

Definition run_op (env : Env) (op : Op) : M unit :=
  match op with
  | OpDisassembleWasm buffer => void (disassembleWasm env buffer)
  | OpDisassembleWasmWithWabt f => disassembleWasmWithWabt env f
  | OpAssembleWat wat => void (assembleWat env wat)
  | OpAssembleWatWithWabt f => assembleWatWithWabt env f
  | OpDisassembleWasmWithBinaryen f => disassembleWasmWithBinaryen env f
  | OpConvertWasmToAsmWithBinaryen f => convertWasmToAsmWithBinaryen env f
  | OpCompileMarkdownToHtml src => void (compileMarkdownToHtml env src)
  end.

(** Operations run one after the other; a caller that catches the error
    of one goes on with the next. *)
Definition run_ops (env : Env) (ops : list Op) (st : State) : State :=
  foldl (fun st op => (run_op env op st).2) st ops.

(** A computation whose only interactions are those of a load of [c],
    which binds nothing but the name of [c], and which does neither once
    the engine of [c] is loaded. *)
Definition loads_only {A} (c : Capability) (m : M A) : Prop :=
  forall st, exists extra,
    trace (m st).2 = trace st ++ extra /\
    Forall (load_event c) extra /\
    (forall y, y <> cap_global c -> globals (m st).2 !! y = globals st !! y) /\
    (is_loaded (cap_global c) st = true ->
     extra = [] /\ globals (m st).2 = globals st).

(** A computation that leaves the global namespace alone, and one that
    can only succeed with the engine of [c] loaded. *)
Definition keeps_globals {A} (m : M A) : Prop :=
  forall st, globals (m st).2 = globals st.

Definition loaded_after {A} (c : Capability) (m : M A) : Prop :=
  forall st, is_ok (m st).1 = true -> is_loaded (cap_global c) (m st).2 = true.

(** ** Concrete collaborators, used to run the functions on examples *)

Definition st0 : State :=
  {| trace := []; globals := ∅; files := ∅; dirs := ∅ |}.

(** A backend that answers every request with [result]. *)
Definition service_answering (result : CompileResult) : CompilerService :=
  {| compile := fun _ => Ok result |}.

(** A service factory that resolves a service for every language pair,
    a network that serves [text] for every URL, and an evaluator that
    yields [objs]. *)
Definition env_with (result : CompileResult) (text : string)
    (objs : list GVal) : Env :=
  {| createCompilerService := fun _ _ => Ok (service_answering result);
     fetch_text := fun _ => Ok text;
     run_code := fun _ => Ok objs |}.

Definition main_cpp : SourceFile :=
  {| getPath := "src/main.cpp"; getData := JStr "int main() { return 0; }" |}.

Definition result_empty : CompileResult :=
  {| success := true; console := EmptyString; items := ∅ |}.

Definition result_failed : CompileResult :=
  {| success := false; console := "main.cpp:1:1: error: expected expression";
     items := ∅ |}.

(** A successful answer whose primary output is present but empty. *)
Definition result_blank : CompileResult :=
  {| success := true; console := EmptyString;
     items := {[ "a.wasm" := {| content := JStr EmptyString |} ]} |}.

(** A successful answer whose only output is named "__proto__". *)
Definition result_proto : CompileResult :=
  {| success := true; console := EmptyString;
     items := {[ "__proto__" := {| content := JStr "x" |} ]} |}.

(** A successful answer with the primary binary, the bindings script, an
    auxiliary file and a declared output without content. *)
Definition result_bindgen : CompileResult :=
  {| success := true; console := "ok";
     items := {[ "a.wasm" := {| content := JBuf [Byte.x00; Byte.x61; Byte.x73; Byte.x6d] |};
                 "wasm_bindgen.js" := {| content := JStr "export function run() {}" |};
                 "a.d.ts" := {| content := JStr "export function run(): void;" |};
                 "a.map" := {| content := JUndefined |} ]} |}.

(** An engine, and a process in which wabt is loaded. *)
Definition engine_stub : Engine :=
  {| wabt_disassemble := fun _ => Ok "(module)";
     wabt_assemble := fun _ => Ok (JBuf [Byte.x00; Byte.x61; Byte.x73; Byte.x6d]);
     readBinary := fun _ => Ok {| emitText := Ok "(module)";
                                  emitAsmjs := Ok "function asmFunc() {}" |};
     showdown_makeHtml := fun _ => Ok "<h1>Title</h1>" |}.

Definition st_wabt : State :=
  {| trace := [EvFetch "https://webassembly.studio/lib/libwabt.js"];
     globals := {[ "wabt" := GEngine engine_stub ]};
     files := ∅; dirs := ∅ |}.

(** A project directory holding one compiled module, with Binaryen
    loaded. *)
Definition main_wasm : FileObj :=
  {| file := {| name := "main.wasm"; type := Some FileType_Wasm;
                description := None;
                data := JBuf [Byte.x00; Byte.x61; Byte.x73; Byte.x6d] |};
     parent := Some 0 |}.

Definition st_project : State :=
  {| trace := [];
     globals := {[ "Binaryen" := GEngine engine_stub ]};
     files := {[ 0 := main_wasm ]};
     dirs := {[ 0 := {| dname := "out"; dchildren := [0] |} ]} |}.

(** JSON nodes: files with inline, blank, [null] and missing data, and
    directories. *)
Definition json_file (n : string) (d : JsVal) : IFile :=
  {| iname := n; ichildren := None; itype := Some "text"; idata := d;
     idescription := Some "a file" |}.

Definition json_dir (n : string) (cs : list IFile) : IFile :=
  {| iname := n; ichildren := Some cs; itype := None; idata := JUndefined;
     idescription := None |}.

(** A network that serves, for every URL, the text "fetched". *)
Definition env_fetched : Env := env_with result_empty "fetched" [].

(** The outcome and the state of the fetch branch. *)
Definition fetched (env : Env) (json : IFile) (basePath : string) (st : State)
    : Res Node * State :=
  (match fetch_text env (basePath +:+ "/" +:+ iname json) with
   | Ok text => Ok (NFile {| name := iname json; type := itype json;
                             description := idescription json;
                             data := JStr text |})
   | Throw e => Throw e
   end,
   {| trace := trace st ++ [EvFetch (basePath +:+ "/" +:+ iname json)];
      globals := globals st; files := files st; dirs := dirs st |}).


(** The tree of the specification's example, with a file to fetch, and
    a scheduler under which the last sibling settles first. *)
Definition json_root : ProjectJson :=
  {| pj_name := "root"; pj_directory := "hello";
     pj_children := [ json_file "a.txt" (JStr "hi");
                      json_dir "b" [ json_file "c.txt" JUndefined;
                                     json_file "d.txt" JNull ];
                      json_file "e.txt" JUndefined ] |}.

Definition last_first (cs : list IFile) : list nat :=
  reverse (seq 0 (length cs)).

Definition project_empty : Project :=
  {| project_name := EmptyString; project_children := [] |}.

(** ** Further collaborators and predicates *)

(** A service factory that supports no language pair. *)
Definition env_unsupported : Env :=
  {| createCompilerService := fun from to =>
       Throw ("createCompilerService: not supported " +:+ from +:+ "->" +:+ to);
     fetch_text := fun _ => Throw "network error";
     run_code := fun _ => Throw "SyntaxError" |}.

(** The text that [lazyLoad] evaluates for the engine [c], given the
    fetched text [res]. *)
Definition load_body (c : Capability) (res : string) : string :=
  res +:+ newline +:+ "return [" +:+ cap_global c +:+ "];".

(** The network serves the resource of [c] and its evaluation yields an
    engine as first export. *)
Definition serves (env : Env) (c : Capability) : Prop :=
  exists res e rest,
    fetch_text env (baseUrl +:+ cap_uri c) = Ok res /\
    run_code env (load_body c res) = Ok (GEngine e :: rest).

(** A computation that either leaves the trace and the global namespace
    alone, or performs exactly one load of [c], which was not loaded and
    is loaded afterwards. *)
Definition loads_at_most_once {A} (c : Capability) (m : M A) : Prop :=
  forall st,
    (trace (m st).2 = trace st /\ globals (m st).2 = globals st) \/
    (is_loaded (cap_global c) st = false /\
     is_loaded (cap_global c) (m st).2 = true /\
     exists res, trace (m st).2 =
                 trace st ++ [EvFetch (baseUrl +:+ cap_uri c);
                              EvEval (load_body c res)]).

(** A network and evaluator that deliver the engine stub for every
    resource. *)
Definition env_engines : Env :=
  env_with result_empty "var engine = {};" [GEngine engine_stub].


Definition wasm_magic : JsVal := JBuf [Byte.x00; Byte.x61; Byte.x73; Byte.x6d].

(** The state after a load of [c] that fetched [res] and evaluated it to
    [objs], and the result of an engine call made right after it. *)
Definition after_load (c : Capability) (res : string) (objs : list GVal)
    (st : State) : State :=
  {| trace := trace st ++ [EvFetch (baseUrl +:+ cap_uri c);
                           EvEval (load_body c res)];
     globals := <[cap_global c := default GUndef (objs !! 0)]> (globals st);
     files := files st; dirs := dirs st |}.


(** The file object that a post-processor leaves behind, and the
    relation between the store before and after it was attached to the
    parent of the source [fo]: one file object that did not exist, last
    child of the parent; nothing else differs. *)
Definition output_file (n : string) (t : FileType) (desc : string)
    (v : JsVal) (d : nat) : FileObj :=
  {| file := {| name := n; type := Some t; description := Some desc; data := v |};
     parent := Some d |}.

Definition emits_sibling (st st' : State) (f : nat) (fo : FileObj)
    (suffix : string) (t : FileType) (desc : string) (v : JsVal) : Prop :=
  exists out d dobj,
    files st !! out = None /\ out <> f /\
    parent fo = Some d /\ dirs st !! d = Some dobj /\
    files st' = <[out := output_file (name (file fo) +:+ suffix) t desc v d]>
                  (files st) /\
    dirs st' = <[d := {| dname := dname dobj;
                         dchildren := dchildren dobj ++ [out] |}]> (dirs st).

(** The store only grows: every file object is kept as it is, every
    directory keeps its name and its children, in order, possibly
    followed by new ones. *)
Definition store_grows (st st' : State) : Prop :=
  files st ⊆ files st' /\
  forall d dobj, dirs st !! d = Some dobj ->
    exists dobj', dirs st' !! d = Some dobj' /\
                  dname dobj' = dname dobj /\
                  dchildren dobj `prefix_of` dchildren dobj'.

(** An engine whose Binaryen module cannot be printed as text. *)
Definition engine_no_text : Engine :=
  {| wabt_disassemble := fun _ => Throw "not wabt";
     wabt_assemble := fun _ => Throw "not wabt";
     readBinary := fun _ => Ok {| emitText := Throw "emitText failed";
                                  emitAsmjs := Ok "function asmFunc() {}" |};
     showdown_makeHtml := fun _ => Throw "not showdown" |}.

Definition st_project_no_text : State :=
  {| trace := [];
     globals := {[ "Binaryen" := GEngine engine_no_text ]};
     files := {[ 0 := main_wasm ]};
     dirs := {[ 0 := {| dname := "out"; dchildren := [0] |} ]} |}.

(** The same project with wabt loaded. *)
Definition st_project_wabt : State :=
  {| trace := [];
     globals := {[ "wabt" := GEngine engine_stub ]};
     files := {[ 0 := main_wasm ]};
     dirs := {[ 0 := {| dname := "out"; dchildren := [0] |} ]} |}.

(** The URLs of the files of a tree whose content is not inline, in the
    order of a depth-first walk: a file is fetched when its [data] is
    neither truthy nor [null]. *)
Fixpoint fetch_urls (json : IFile) (basePath : string) : list string :=
  match ichildren json with
  | Some cs =>
      flat_map (fun c => fetch_urls c (basePath +:+ "/" +:+ iname json)) cs
  | None =>
      if truthy (idata json) then []
      else if decide (idata json = JNull) then []
      else [basePath +:+ "/" +:+ iname json]
  end.

Definition project_urls (json : ProjectJson) : list string :=
  flat_map (fun c => fetch_urls c ("templates/" +:+ pj_directory json))
           (pj_children json).

(** The state after the fetches of [urls] have been started. *)
Definition started (urls : list string) (st : State) : State :=
  {| trace := trace st ++ (EvFetch <$> urls); globals := globals st;
     files := files st; dirs := dirs st |}.

(** A network on which exactly the fetch of "templates/hello/e.txt"
    rejects. *)
Definition env_e_missing : Env :=
  {| createCompilerService := fun _ _ => Throw "no service";
     fetch_text := fun url =>
       if String.eqb url "templates/hello/e.txt" then Throw "404 e.txt"
       else Ok "fetched";
     run_code := fun _ => Throw "SyntaxError" |}.

(** A tree all of whose files carry their content, or [null]. *)
Fixpoint inline_only (json : IFile) : bool :=
  match ichildren json with
  | Some cs => forallb inline_only cs
  | None => truthy (idata json) || bool_decide (idata json = JNull)
  end.

(** A project with every content inline or [null], and an empty
    directory. *)
Definition json_inline : ProjectJson :=
  {| pj_name := "root"; pj_directory := "hello";
     pj_children := [ json_file "a.txt" (JStr "hi"); json_dir "b" [];
                      json_dir "src" [ json_file "main.c" JNull ] ] |}.

(** A scheduler under which the sibling at index [i] settles first. *)
Definition first_settles (i : nat) (cs : list IFile) : list nat := [i].

(** A network on which every fetch rejects, with the URL as error. *)
Definition env_offline : Env :=
  {| createCompilerService := fun _ _ => Throw "no service";
     fetch_text := fun url => Throw ("offline: " +:+ url);
     run_code := fun _ => Throw "SyntaxError" |}.

Definition json_two_missing : ProjectJson :=
  {| pj_name := "root"; pj_directory := "hello";
     pj_children := [ json_file "a.txt" JUndefined;
                      json_file "b.txt" JUndefined ] |}.

(** * Properties *)

(** ** Generic facts about the monad and the store *)

Lemma js_assign_lookup {A} (o : gmap string A) (k j : string) (v : A) :
  js_assign o k v !! j =
  if decide (k = j /\ k <> "__proto__") then Some v else o !! j.
Proof.
  unfold js_assign. destruct (String.eqb_spec k "__proto__") as [->|Hk].
  - by rewrite decide_False by (by intros [_ ?]).
  - destruct (decide (k = j)) as [<-|Hne].
    + by rewrite lookup_insert_eq, decide_True.
    + rewrite lookup_insert_ne by done. by rewrite decide_False by (by intros [? _]).
Qed.

Lemma outputFiles_lookup (its : gmap string Item) (k : string) :
  outputFiles its !! k =
  if decide (k = "__proto__") then None
  else its !! k ≫= (fun item => if truthy (content item)
                                then Some (content item) else None).
Proof.
  unfold outputFiles.
  apply (map_fold_weak_ind
           (fun r m => r !! k = if decide (k = "__proto__") then None
                                else m !! k ≫= _)).
  - rewrite !lookup_empty. by destruct (decide (k = "__proto__")).
  - intros i x m r Hi IH.
    assert ((if truthy (content x) then js_assign r i (content x) else r) !! k
            = if decide (i = k /\ i <> "__proto__")
              then (if truthy (content x) then Some (content x) else r !! k)
              else r !! k) as ->.
    { destruct (truthy (content x)); [apply js_assign_lookup|].
      by destruct (decide (i = k /\ i <> "__proto__")). }
    rewrite IH. destruct (decide (k = "__proto__")) as [->|Hk].
    + by destruct (decide (i = "__proto__" /\ i <> "__proto__")) as [[-> Hc]|].
    + destruct (decide (i = k)) as [->|Hne].
      * rewrite decide_True by done. rewrite lookup_insert_eq, Hi. simpl.
        by destruct (truthy (content x)).
      * rewrite decide_False by (by intros [? _]).
        by rewrite lookup_insert_ne.
Qed.

Lemma outputFiles_truthy (its : gmap string Item) (k : string) (v : JsVal) :
  outputFiles its !! k = Some v -> truthy v = true.
Proof.
  rewrite outputFiles_lookup. destruct (decide (k = "__proto__")); [done|].
  destruct (its !! k) as [item|]; simpl; [|done].
  destruct (truthy (content item)) eqn:E; [|done]. by intros [= <-].
Qed.

(** What [compileFiles] does once the service is resolved and the
    backend has answered. *)
Lemma compileFiles_run env fs from to options st svc result :
  createCompilerService env from to = Ok svc ->
  compile svc {| in_files := input_files fs; in_options := options |} = Ok result ->
  compileFiles env fs from to options st =
  (if success result then Ok (outputFiles (items result))
   else Throw (console result),
   {| trace := trace st ++
               [EvCompile from to {| in_files := input_files fs;
                                     in_options := options |}];
      globals := globals st; files := files st; dirs := dirs st |}).
Proof.
  intros Hsvc Hres. unfold compileFiles, bind, lift, emit, throw, ret.
  rewrite Hsvc; simpl. rewrite Hres; simpl.
  by destruct (success result).
Qed.

Lemma wasm_target_guard (to : Language) :
  negb (String.eqb to Language_Wasm) = true <-> to <> Language_Wasm.
Proof.
  rewrite negb_true_iff. apply String.eqb_neq.
Qed.

(** Every content that [compileFiles] returns is truthy. *)
Lemma compileFiles_run_truthy env fs from to options st outs st' :
  compileFiles env fs from to options st = (Ok outs, st') ->
  forall k, outs !! k = None \/ exists v, outs !! k = Some v /\ truthy v = true.
Proof.
  unfold compileFiles, bind, lift, emit, throw, ret.
  destruct (createCompilerService env from to) as [svc|]; [simpl|done].
  destruct (compile svc _) as [result|]; [simpl|done].
  destruct (success result); simpl; [|done].
  intros [= <- _] k.
  destruct (outputFiles (items result) !! k) as [v|] eqn:E; [right|by left].
  exists v. split; [done|]. by eapply outputFiles_truthy.
Qed.

(** ** The compilation dispatcher *)

(** C1: when the backend answers [success = false], [compileFiles]
    throws an error whose message is the answer's console text and
    returns nothing; so do [compileFileWithBindings] and [compileFile],
    which reach the backend through it for the wasm target. *)
Theorem compile_failure_throws_console env fs from to options st svc result :
  createCompilerService env from to = Ok svc ->
  compile svc {| in_files := input_files fs; in_options := options |} = Ok result ->
  success result = false ->
  (compileFiles env fs from to options st).1 = Throw (console result) /\
  (forall f, fs = [f] -> to = Language_Wasm ->
     (compileFileWithBindings env f from to options st).1 = Throw (console result) /\
     (compileFile env f from to options st).1 = Throw (console result)).
Proof.
  intros Hsvc Hres Hfail.
  pose proof (compileFiles_run env fs from to options st svc result Hsvc Hres) as Hrun.
  rewrite Hfail in Hrun. split; [by rewrite Hrun|].
  intros f -> ->.
  assert ((compileFileWithBindings env f from Language_Wasm options st).1
          = Throw (console result)) as Hb.
  { unfold compileFileWithBindings, bind. simpl. by rewrite Hrun. }
  split; [done|].
  unfold compileFile, bind.
  destruct (compileFileWithBindings env f from Language_Wasm options st) as [[o|e] st'];
    simpl in *; congruence.
Qed.

Lemma compile_failure_throws_console_witness :
  (compileFiles (env_with result_failed EmptyString []) [main_cpp]
     "cpp" Language_Wasm "-O2" st0).1
  = Throw "main.cpp:1:1: error: expected expression".
Proof.
  refine (proj1 (compile_failure_throws_console
                   (env_with result_failed EmptyString []) [main_cpp]
                   "cpp" Language_Wasm "-O2" st0
                   (service_answering result_failed) result_failed _ _ _));
    reflexivity.
Defined.

(** C2 (as amended): for every target other than wasm,
    [compileFileWithBindings] and [compileFile] throw the
    unsupported-target error at once: the state, and with it the trace of
    network interactions, is the one they were called in, whatever the
    service factory and the backend would do. *)
Theorem unsupported_target_fails_before_network env f from to options st :
  to <> Language_Wasm ->
  compileFileWithBindings env f from to options st
    = (Throw (unsupported_target to), st) /\
  compileFile env f from to options st
    = (Throw (unsupported_target to), st).
Proof.
  intros Hto. apply wasm_target_guard in Hto.
  assert (compileFileWithBindings env f from to options st
          = (Throw (unsupported_target to), st)) as Hb.
  { unfold compileFileWithBindings. by rewrite Hto. }
  split; [done|].
  unfold compileFile, bind. by rewrite Hb.
Qed.

Lemma unsupported_target_fails_before_network_witness :
  compileFile (env_with result_bindgen EmptyString []) main_cpp "wasm" "x86" "-O2" st0
  = (Throw ("Only wasm target is supported, but " +:+ dquote +:+ "x86"
            +:+ dquote +:+ " was found"), st0).
Proof.
  refine (proj2 (unsupported_target_fails_before_network
                   (env_with result_bindgen EmptyString []) main_cpp
                   "wasm" "x86" "-O2" st0 _)).
  unfold Language_Wasm. discriminate.
Defined.

(** C2 (as stated) fails for [compileFiles], which has no target check
    of its own: with a factory that resolves a service for the pair
    (wasm, x86), the request is posted and the call returns. *)
Lemma compileFiles_other_target_reaches_backend :
  "x86" <> Language_Wasm /\
  compileFiles (env_with result_empty EmptyString []) [main_cpp]
    "wasm" "x86" "-O2" st0
  = (Ok ∅,
     {| trace := [EvCompile "wasm" "x86"
                    {| in_files := {[ "src/main.cpp" :=
                                        {| in_content := JStr "int main() { return 0; }" |} ]};
                       in_options := "-O2" |}];
        globals := ∅; files := ∅; dirs := ∅ |}).
Proof.
  split; [unfold Language_Wasm; discriminate|].
  erewrite compileFiles_run by reflexivity.
  reflexivity.
Qed.

(** C3 (as amended): when the backend answers [success = true] and
    [items] has no entry named "__proto__", [compileFiles] returns a
    mapping that holds exactly the entries of [items] whose content is
    truthy (present, not [null] and not the empty string), each name
    mapped to that entry's content unchanged. *)
Theorem compileFiles_keeps_truthy_items env fs from to options st svc result :
  createCompilerService env from to = Ok svc ->
  compile svc {| in_files := input_files fs; in_options := options |} = Ok result ->
  success result = true ->
  items result !! "__proto__" = None ->
  exists outs,
    (compileFiles env fs from to options st).1 = Ok outs /\
    forall (k : string) (v : JsVal),
      outs !! k = Some v <->
      exists item, items result !! k = Some item /\ content item = v /\
                   truthy v = true.
Proof.
  intros Hsvc Hres Hok Hproto.
  rewrite (compileFiles_run env fs from to options st svc result Hsvc Hres), Hok.
  eexists; split; [reflexivity|].
  intros k v. rewrite outputFiles_lookup.
  destruct (decide (k = "__proto__")) as [->|Hk].
  - rewrite Hproto. split; [done|]. by intros (item & Hitem & _).
  - split.
    + destruct (items result !! k) as [item|]; simpl; [|done].
      destruct (truthy (content item)) eqn:E; [|done].
      intros [= <-]. by exists item.
    + intros (item & -> & <- & Ht). simpl. by rewrite Ht.
Qed.

Lemma compileFiles_keeps_truthy_items_witness :
  exists outs,
    (compileFiles (env_with result_bindgen EmptyString []) [main_cpp]
       "cpp" Language_Wasm "-O2" st0).1 = Ok outs /\
    forall (k : string) (v : JsVal),
      outs !! k = Some v <->
      exists item, items result_bindgen !! k = Some item /\ content item = v /\
                   truthy v = true.
Proof.
  apply (compileFiles_keeps_truthy_items
           (env_with result_bindgen EmptyString []) [main_cpp]
           "cpp" Language_Wasm "-O2" st0 (service_answering result_bindgen));
    reflexivity.
Defined.

(** C3 (as stated) fails: an entry whose content is present but is the
    empty string is dropped as well, and so is an entry named
    "__proto__", whatever its content. *)
Lemma compileFiles_drops_empty_content :
  (items result_blank !! "a.wasm" = Some {| content := JStr EmptyString |} /\
   JStr EmptyString <> JUndefined /\
   success result_blank = true /\
   (compileFiles (env_with result_blank EmptyString []) [main_cpp]
      "cpp" Language_Wasm "-O2" st0).1 = Ok ∅) /\
  (items result_proto !! "__proto__" = Some {| content := JStr "x" |} /\
   JStr "x" <> JUndefined /\
   success result_proto = true /\
   (compileFiles (env_with result_proto EmptyString []) [main_cpp]
      "cpp" Language_Wasm "-O2" st0).1 = Ok ∅).
Proof.
  split; repeat split; done.
Qed.

(** C4: for the mapping [outs] of a successful compile,
    [compileFileWithBindings] returns an object whose [wasm] is the
    content stored under ["a.wasm"] ([undefined] when there is none, and
    no error then) and which has a [wasmBindgenJs], equal to the content
    stored under ["wasm_bindgen.js"], exactly when that entry is present;
    the object has no other field, so no other entry of [outs] is looked
    at. *)
Theorem compileFileWithBindings_resolves env f from options st outs st' :
  compileFiles env [f] from Language_Wasm options st = (Ok outs, st') ->
  exists output,
    compileFileWithBindings env f from Language_Wasm options st = (Ok output, st') /\
    output !! "wasm" = Some (default JUndefined (outs !! "a.wasm")) /\
    output !! "wasmBindgenJs" = outs !! "wasm_bindgen.js" /\
    (forall k, k <> "wasm" -> k <> "wasmBindgenJs" -> output !! k = None).
Proof.
  intros Hrun. unfold compileFileWithBindings, bind. simpl. rewrite Hrun.
  unfold ret, jsget, expectedOutputFilename, expectedWasmBindgenJsFilename.
  eexists; split; [reflexivity|].
  destruct (compileFiles_run_truthy env [f] from Language_Wasm options st outs st' Hrun
              "wasm_bindgen.js") as [Hnone | (v & Hsome & Ht)].
  - rewrite Hnone. simpl. split_and!; [done|done|].
    intros k Hk _. by rewrite lookup_singleton_ne.
  - rewrite Hsome. simpl. rewrite Ht. split_and!.
    + rewrite lookup_insert_ne by done. by rewrite lookup_singleton_eq.
    + by rewrite lookup_insert_eq.
    + intros k Hk1 Hk2. rewrite lookup_insert_ne by done.
      by rewrite lookup_singleton_ne.
Qed.

Lemma compileFileWithBindings_resolves_witness :
  exists output,
    compileFileWithBindings (env_with result_bindgen EmptyString []) main_cpp
      "cpp" Language_Wasm "-O2" st0
    = (Ok output,
       (compileFiles (env_with result_bindgen EmptyString []) [main_cpp]
          "cpp" Language_Wasm "-O2" st0).2) /\
    output !! "wasm" = Some (JBuf [Byte.x00; Byte.x61; Byte.x73; Byte.x6d]) /\
    output !! "wasmBindgenJs" = Some (JStr "export function run() {}") /\
    (forall k, k <> "wasm" -> k <> "wasmBindgenJs" -> output !! k = None).
Proof.
  apply (compileFileWithBindings_resolves
           (env_with result_bindgen EmptyString []) main_cpp "cpp" "-O2" st0
           (outputFiles (items result_bindgen))).
  vm_compute. reflexivity.
Defined.

(** ** Lazily loaded engines *)

Lemma lazyLoad_exports_unknown (uri : string) :
  uri <> "lib/libwabt.js" -> uri <> "lib/showdown.min.js" ->
  uri <> "lib/binaryen.js" -> lazyLoad_exports uri = None.
Proof.
  intros H1 H2 H3. unfold lazyLoad_exports.
  apply String.eqb_neq in H1, H2, H3. by rewrite H1, H2, H3.
Qed.

(** C7: a [lazyLoad] uri that is none of the three known ones throws
    "Unknow lazyLoad uri: <uri>" and leaves the state as it was: nothing
    is fetched, nothing is evaluated, no global is bound. *)
Theorem lazyLoad_unknown_uri env uri st :
  uri <> "lib/libwabt.js" -> uri <> "lib/showdown.min.js" ->
  uri <> "lib/binaryen.js" ->
  lazyLoad env uri st = (Throw ("Unknow lazyLoad uri: " +:+ uri), st).
Proof.
  intros H1 H2 H3. unfold lazyLoad.
  by rewrite lazyLoad_exports_unknown.
Qed.

Lemma lazyLoad_unknown_uri_witness :
  lazyLoad (env_with result_empty "var capstone = {};" []) "lib/capstone.x86.min.js" st0
  = (Throw "Unknow lazyLoad uri: lib/capstone.x86.min.js", st0).
Proof.
  apply (lazyLoad_unknown_uri (env_with result_empty "var capstone = {};" [])
           "lib/capstone.x86.min.js" st0); discriminate.
Defined.

(** *** Computations that at most load one engine *)

Lemma is_loaded_globals x st st' :
  globals st' = globals st -> is_loaded x st' = is_loaded x st.
Proof. unfold is_loaded. by intros ->. Qed.

Lemma quiet_loads_only {A} c (m : M A) :
  (forall st, trace (m st).2 = trace st /\ globals (m st).2 = globals st) ->
  loads_only c m.
Proof.
  intros Hq st. destruct (Hq st) as [Ht Hg]. exists [].
  rewrite app_nil_r, Hg. by split_and!.
Qed.

Lemma loads_only_ret {A} c (a : A) : loads_only c (ret a).
Proof. by apply quiet_loads_only. Qed.

Lemma loads_only_throw {A} c e : loads_only c (@throw A e).
Proof. by apply quiet_loads_only. Qed.

Lemma loads_only_lift {A} c (r : Res A) : loads_only c (lift r).
Proof. by apply quiet_loads_only. Qed.

Lemma loads_only_engine c x : loads_only c (engine x).
Proof.
  apply quiet_loads_only. intros st. unfold engine.
  by destruct (globals st !! x) as [[|e]|].
Qed.

Lemma loads_only_file_get {A} c r (g : FileObj -> A) : loads_only c (file_get r g).
Proof.
  apply quiet_loads_only. intros st. unfold file_get.
  by destruct (files st !! r).
Qed.

Lemma loads_only_file_set c r g : loads_only c (file_set r g).
Proof. by apply quiet_loads_only. Qed.

Lemma loads_only_newFile c d n t : loads_only c (newFile d n t).
Proof.
  apply quiet_loads_only. intros st. unfold newFile.
  by destruct (dirs st !! d).
Qed.

Lemma loads_only_bind {A B} c (m : M A) (k : A -> M B) :
  loads_only c m -> (forall a, loads_only c (k a)) -> loads_only c (bind m k).
Proof.
  intros Hm Hk st. unfold bind.
  destruct (Hm st) as (e1 & Ht1 & Hl1 & Hg1 & Hi1).
  destruct (m st) as [[a|e] st1]; simpl in *.
  - destruct (Hk a st1) as (e2 & Ht2 & Hl2 & Hg2 & Hi2).
    exists (e1 ++ e2). split_and!.
    + by rewrite Ht2, Ht1, app_assoc.
    + by apply Forall_app.
    + intros y Hy. by rewrite Hg2, Hg1.
    + intros Hld. destruct (Hi1 Hld) as [-> Hg].
      rewrite <- (is_loaded_globals _ st st1 Hg) in Hld.
      destruct (Hi2 Hld) as [-> Hg']. split; [done|congruence].
  - by exists e1.
Qed.

Lemma loads_only_parent_newFile c r n t : loads_only c (parent_newFile r n t).
Proof.
  apply loads_only_bind; [apply loads_only_file_get|].
  intros [d|]; [apply loads_only_newFile|apply loads_only_throw].
Qed.

Lemma loads_only_void {A} c (m : M A) : loads_only c m -> loads_only c (void m).
Proof.
  intros Hm. apply loads_only_bind; [done|]. intros _. apply loads_only_ret.
Qed.

Lemma lazyLoad_exports_cap c : lazyLoad_exports (cap_uri c) = Some [cap_global c].
Proof. by destruct c. Qed.

Lemma loads_only_ensure env c :
  loads_only c (ensure env (cap_global c) (cap_uri c)).
Proof.
  intros st. unfold ensure, bind, typeof_undefined, is_loaded. simpl.
  destruct (globals st !! cap_global c) as [[|e]|] eqn:Hg;
    try (exists []; rewrite app_nil_r; by split_and!).
  all: unfold lazyLoad; rewrite lazyLoad_exports_cap;
    unfold bind, emit, lift, set_globals; simpl;
    destruct (fetch_text env (baseUrl +:+ cap_uri c)) as [res|err]; simpl;
    [destruct (run_code env _) as [objs|err]; simpl|].
  all: first
    [ exists [EvFetch (baseUrl +:+ cap_uri c);
              EvEval (res +:+ newline +:+ "return [" +:+ cap_global c +:+ "];")];
      split_and!; [by rewrite <- app_assoc| | |done];
      [repeat constructor; by exists res|]
    | exists [EvFetch (baseUrl +:+ cap_uri c)];
      split_and!; [done| | |done]; [by repeat constructor|] ].
  all: intros y Hy; try done; by apply lookup_insert_ne.
Qed.

Lemma loads_only_run_op env op : loads_only (op_capability op) (run_op env op).
Proof.
  pose proof (loads_only_ensure env (op_capability op)) as He.
  destruct op; simpl in *; unfold void, disassembleWasm, disassembleWasmWithWabt,
    assembleWat, assembleWatWithWabt, disassembleWasmWithBinaryen,
    convertWasmToAsmWithBinaryen, compileMarkdownToHtml;
    repeat first
      [ exact He
      | apply loads_only_ret | apply loads_only_lift | apply loads_only_engine
      | apply loads_only_file_get | apply loads_only_file_set
      | apply loads_only_parent_newFile
      | apply loads_only_bind; [|intros ?] ].
Qed.

(** The text evaluated by a load ends with the export of the engine's
    name, so the loads of two engines have no interaction in common. *)
Lemma list_ascii_of_string_app (s t : string) :
  String.list_ascii_of_string (s +:+ t) =
  String.list_ascii_of_string s ++ String.list_ascii_of_string t.
Proof. induction s as [|a s IH]; simpl; [done|by rewrite IH]. Qed.

Lemma eval_body_tail (res t : string) (n : nat) :
  n <= length (String.list_ascii_of_string t) ->
  take n (reverse (String.list_ascii_of_string (res +:+ t))) =
  take n (reverse (String.list_ascii_of_string t)).
Proof.
  intros Hn. rewrite list_ascii_of_string_app, reverse_app.
  apply take_app_le. by rewrite length_reverse.
Qed.

Lemma load_event_inj c c' e : load_event c e -> load_event c' e -> c = c'.
Proof.
  destruct e as [| url | body]; simpl; [done| |].
  - intros -> Heq. by destruct c, c'.
  - intros [res ->] [res' Heq].
    apply (f_equal (fun s => take 5 (reverse (String.list_ascii_of_string s)))) in Heq.
    destruct c, c'; try done;
      rewrite (eval_body_tail res), (eval_body_tail res') in Heq by (simpl; lia);
      discriminate Heq.
Qed.

Lemma cap_global_inj c c' : cap_global c = cap_global c' -> c = c'.
Proof. by destruct c, c'. Qed.

(** *** Computations that need their engine *)

Lemma keeps_globals_bind {A B} (m : M A) (k : A -> M B) :
  keeps_globals m -> (forall a, keeps_globals (k a)) -> keeps_globals (bind m k).
Proof.
  intros Hm Hk st. unfold bind. specialize (Hm st).
  destruct (m st) as [[a|e] st1]; simpl in *; [|done].
  by rewrite Hk.
Qed.

Lemma keeps_globals_file_get {A} r (g : FileObj -> A) : keeps_globals (file_get r g).
Proof. intros st. unfold file_get. by destruct (files st !! r). Qed.

Lemma keeps_globals_parent_newFile r n t : keeps_globals (parent_newFile r n t).
Proof.
  apply keeps_globals_bind; [apply keeps_globals_file_get|].
  intros [d|] st; [|done]. unfold newFile. by destruct (dirs st !! d).
Qed.

Lemma loaded_after_bind_r {A B} c (m : M A) (k : A -> M B) :
  (forall a, loaded_after c (k a)) -> loaded_after c (bind m k).
Proof.
  intros Hk st. unfold bind. destruct (m st) as [[a|e] st1]; simpl; [|done].
  apply Hk.
Qed.

Lemma loaded_after_bind_l {A B} c (m : M A) (k : A -> M B) :
  loaded_after c m -> (forall a, keeps_globals (k a)) -> loaded_after c (bind m k).
Proof.
  intros Hm Hk st. unfold bind. specialize (Hm st).
  destruct (m st) as [[a|e] st1]; simpl in *; [|done].
  intros _. rewrite (is_loaded_globals _ st1) by apply Hk. by apply Hm.
Qed.

Lemma loaded_after_engine c : loaded_after c (engine (cap_global c)).
Proof.
  intros st. unfold engine, is_loaded.
  destruct (globals st !! cap_global c) as [[|e]|] eqn:E; simpl; rewrite ?E; done.
Qed.

Ltac solve_keeps_globals :=
  intros; repeat first
    [ apply keeps_globals_file_get | apply keeps_globals_parent_newFile
    | apply keeps_globals_bind; [|intros ?]
    | by intros ? ].

Lemma loaded_after_run_op env op : loaded_after (op_capability op) (run_op env op).
Proof.
  pose proof (loaded_after_engine (op_capability op)) as He.
  assert (forall A (r : Res A), keeps_globals (lift r)) as Hlift by done.
  destruct op; simpl in *;
    unfold void, disassembleWasm, disassembleWasmWithWabt, assembleWat,
      assembleWatWithWabt, disassembleWasmWithBinaryen,
      convertWasmToAsmWithBinaryen, compileMarkdownToHtml.
  - apply loaded_after_bind_l; [|solve_keeps_globals].
    apply loaded_after_bind_r; intros _.
    apply loaded_after_bind_l; [done|solve_keeps_globals].
  - apply loaded_after_bind_r; intros buffer. unfold disassembleWasm.
    apply loaded_after_bind_l; [|solve_keeps_globals].
    apply loaded_after_bind_r; intros _.
    apply loaded_after_bind_l; [done|solve_keeps_globals].
  - apply loaded_after_bind_l; [|solve_keeps_globals].
    apply loaded_after_bind_r; intros _.
    apply loaded_after_bind_l; [done|solve_keeps_globals].
  - apply loaded_after_bind_r; intros wat. unfold assembleWat.
    apply loaded_after_bind_l; [|solve_keeps_globals].
    apply loaded_after_bind_r; intros _.
    apply loaded_after_bind_l; [done|solve_keeps_globals].
  - apply loaded_after_bind_r; intros _.
    apply loaded_after_bind_r; intros d.
    apply loaded_after_bind_l; [done|solve_keeps_globals].
  - apply loaded_after_bind_r; intros _.
    apply loaded_after_bind_r; intros d.
    apply loaded_after_bind_l; [done|solve_keeps_globals].
  - apply loaded_after_bind_l; [|solve_keeps_globals].
    apply loaded_after_bind_r; intros _.
    apply loaded_after_bind_l; [done|solve_keeps_globals].
Qed.

(** ** The capability registry *)

(** C8: an operation whose engine is already bound in the global
    namespace fetches nothing, evaluates nothing and binds nothing; once
    an engine is loaded, no sequence of operations, whatever engines they
    need, fetches or evaluates it again, and it stays loaded; and an
    operation can only succeed with its engine loaded afterwards. *)
Theorem loaded_engine_is_not_loaded_again env :
  (forall op st,
     is_loaded (cap_global (op_capability op)) st = true ->
     trace (run_op env op st).2 = trace st /\
     globals (run_op env op st).2 = globals st) /\
  (forall c ops st,
     is_loaded (cap_global c) st = true ->
     is_loaded (cap_global c) (run_ops env ops st) = true /\
     exists extra,
       trace (run_ops env ops st) = trace st ++ extra /\
       Forall (fun e => ~ load_event c e) extra) /\
  (forall op st,
     is_ok (run_op env op st).1 = true ->
     is_loaded (cap_global (op_capability op)) (run_op env op st).2 = true).
Proof.
  split_and!; [| |exact (loaded_after_run_op env)].
  - intros op st Hld.
    destruct (loads_only_run_op env op st) as (extra & Ht & _ & _ & Hi).
    destruct (Hi Hld) as [-> Hg]. by rewrite Ht, app_nil_r.
  - intros c ops. induction ops as [|op ops IH]; intros st Hld.
    + split; [done|]. exists []. by rewrite app_nil_r.
    + unfold run_ops. simpl. fold (run_ops env ops (run_op env op st).2).
      destruct (loads_only_run_op env op st) as (e1 & Ht & Hl & Hg & Hi).
      assert (is_loaded (cap_global c) (run_op env op st).2 = true) as Hld1.
      { destruct (decide (c = op_capability op)) as [->|Hne].
        - destruct (Hi Hld) as [_ Hg']. by rewrite (is_loaded_globals _ _ _ Hg').
        - unfold is_loaded in *. rewrite Hg; [done|].
          intros Heq. by apply cap_global_inj in Heq. }
      destruct (IH _ Hld1) as (Hld2 & e2 & Ht2 & Hl2).
      split; [done|]. exists (e1 ++ e2). split.
      * by rewrite Ht2, Ht, app_assoc.
      * apply Forall_app. split; [|done].
        destruct (decide (c = op_capability op)) as [->|Hne].
        -- destruct (Hi Hld) as [-> _]. constructor.
        -- eapply Forall_impl; [exact Hl|]. intros e He Hc.
           by pose proof (load_event_inj _ _ _ Hc He).
Qed.

Lemma loaded_engine_is_not_loaded_again_witness :
  trace (run_op (env_with result_empty "var wabt = {};" [GEngine engine_stub])
           (OpDisassembleWasm (JBuf [Byte.x00; Byte.x61; Byte.x73; Byte.x6d]))
           st_wabt).2 = trace st_wabt /\
  globals (run_op (env_with result_empty "var wabt = {};" [GEngine engine_stub])
             (OpDisassembleWasm (JBuf [Byte.x00; Byte.x61; Byte.x73; Byte.x6d]))
             st_wabt).2 = globals st_wabt.
Proof.
  apply (proj1 (loaded_engine_is_not_loaded_again
                  (env_with result_empty "var wabt = {};" [GEngine engine_stub]))
           (OpDisassembleWasm (JBuf [Byte.x00; Byte.x61; Byte.x73; Byte.x6d]))
           st_wabt).
  reflexivity.
Defined.

(** ** The post-processors *)

Lemma ensure_store env x uri st :
  files (ensure env x uri st).2 = files st /\
  dirs (ensure env x uri st).2 = dirs st.
Proof.
  unfold ensure, bind, typeof_undefined. simpl.
  destruct (match globals st !! x with Some (GEngine _) => false | _ => true end);
    [|done].
  unfold lazyLoad. destruct (lazyLoad_exports uri) as [exports|]; [|done].
  unfold bind, emit, lift, set_globals. simpl.
  destruct (fetch_text env (baseUrl +:+ uri)) as [res|]; simpl; [|done].
  by destruct (run_code env _) as [objs|].
Qed.

(** C9: [convertWasmToAsmWithBinaryen] leaves the source file object as
    it was, content included, whatever the outcome. When it succeeds, the
    store differs from the one before by exactly one file object that did
    not exist, named after the source with the suffix ".asm.js", child of
    the source's parent, and holding the text that Binaryen emitted for
    the source's content; when it fails, the store is unchanged. *)
Theorem convert_keeps_source env f st fo :
  files st !! f = Some fo ->
  let r := convertWasmToAsmWithBinaryen env f st in
  files r.2 !! f = Some fo /\
  (forall e, r.1 = Throw e -> files r.2 = files st /\ dirs r.2 = dirs st) /\
  (r.1 = Ok tt ->
   exists out d dobj binaryen module text,
     files st !! out = None /\ out <> f /\
     parent fo = Some d /\ dirs st !! d = Some dobj /\
     globals r.2 !! "Binaryen" = Some (GEngine binaryen) /\
     readBinary binaryen (data (file fo)) = Ok module /\
     emitAsmjs module = Ok text /\
     files r.2 =
       <[out := {| file := {| name := name (file fo) +:+ ".asm.js";
                              type := Some FileType_JavaScript;
                              description :=
                                Some ("Converted from " +:+ name (file fo)
                                      +:+ " using Binaryen.");
                              data := JStr text |};
                   parent := Some d |}]> (files st) /\
     dirs r.2 = <[d := {| dname := dname dobj;
                          dchildren := dchildren dobj ++ [out] |}]> (dirs st)).
Proof.
  intros Hfo. cbv zeta. unfold convertWasmToAsmWithBinaryen, bind.
  destruct (ensure_store env "Binaryen" "lib/binaryen.js" st) as [Hf Hd].
  destruct (ensure env "Binaryen" "lib/binaryen.js" st) as [[[]|err] st1];
    simpl in Hf, Hd; [|simpl; by rewrite Hf, Hd, Hfo].
  assert (files st1 !! f = Some fo) as Hfo1 by by rewrite Hf.
  unfold parent_newFile, bind, file_get, engine, lift, newFile, file_set.
  rewrite !Hfo1.
  destruct (globals st1 !! "Binaryen") as [[|binaryen]|] eqn:Hg;
    try (simpl; by rewrite Hf, Hd, Hfo).
  destruct (readBinary binaryen (data (file fo))) as [module|] eqn:Hrb;
    [|simpl; by rewrite Hf, Hd, Hfo].
  destruct (emitAsmjs module) as [text|] eqn:Hem;
    [|simpl; by rewrite Hf, Hd, Hfo].
  rewrite !Hfo1.
  destruct (parent fo) as [d|] eqn:Hp; [|simpl; by rewrite Hf, Hd, Hfo].
  destruct (dirs st1 !! d) as [dobj|] eqn:Hdir; [|simpl; by rewrite Hf, Hd, Hfo].
  simpl.
  set (out := fresh (dom (files st1))).
  assert (files st !! out = None) as Hfresh.
  { apply not_elem_of_dom. rewrite <- Hf. apply is_fresh. }
  assert (out <> f) as Hne by (intros ->; congruence).
  rewrite !alter_insert_eq. simpl. split_and!.
  - rewrite lookup_insert_ne by done. by rewrite Hf.
  - done.
  - intros _. exists out, d, dobj, binaryen, module, text.
    rewrite <- Hd, <- Hf. split_and!; try done; by rewrite ?Hf, ?Hd.
Qed.

Lemma convert_keeps_source_witness :
  let r := convertWasmToAsmWithBinaryen
             (env_with result_empty EmptyString []) 0 st_project in
  files r.2 !! 0 = Some main_wasm /\
  r.1 = Ok tt /\
  (file <$> files r.2 !! 1) =
    Some {| name := "main.wasm.asm.js"; type := Some FileType_JavaScript;
            description := Some "Converted from main.wasm using Binaryen.";
            data := JStr "function asmFunc() {}" |}.
Proof.
  split; [|by vm_compute].
  apply (convert_keeps_source (env_with result_empty EmptyString []) 0
           st_project main_wasm).
  reflexivity.
Defined.

(** ** The project deserializer *)

(** The file that [deserialize] creates for a node, before its content
    is set. *)
Lemma deserialize_leaf env sched json basePath :
  ichildren json = None ->
  deserialize env sched json basePath =
  let file := setDescription (idescription json)
                (newFileObj (iname json) (itype json)) in
  if truthy (idata json) then ret (NFile (setData (idata json) file))
  else if decide (idata json = JNull) then
    ret (NFile (setData (JStr EmptyString) file))
  else
    run emit (EvFetch (basePath +:+ "/" +:+ iname json));
    do text <- lift (fetch_text env (basePath +:+ "/" +:+ iname json));
    ret (NFile (setData (JStr text) file)).
Proof. destruct json as [n cs t d desc]. simpl. by intros ->. Qed.

Lemma deserialize_falsy env sched json basePath st :
  ichildren json = None -> truthy (idata json) = false -> idata json <> JNull ->
  deserialize env sched json basePath st = fetched env json basePath st.
Proof.
  intros Hc Ht Hn. rewrite deserialize_leaf by done. simpl. rewrite Ht.
  destruct (decide (idata json = JNull)); [done|].
  unfold fetched, bind, emit, lift, ret. simpl.
  by destruct (fetch_text env _).
Qed.

(** C5 (as amended): a node without [children] becomes a file with the
    node's name, type tag and description, whose content is the inline
    [data] when [data] is truthy (present, not [null] and not the empty
    string), with nothing fetched; the empty string when [data] is
    [null], with nothing fetched; and, when [data] is absent, the text
    fetched from [basePath + "/" + name] (the call rejects if the fetch
    does). *)
Theorem deserialize_file_content env sched json basePath st :
  ichildren json = None ->
  (truthy (idata json) = true ->
   deserialize env sched json basePath st =
   (Ok (NFile {| name := iname json; type := itype json;
                 description := idescription json; data := idata json |}), st)) /\
  (idata json = JNull ->
   deserialize env sched json basePath st =
   (Ok (NFile {| name := iname json; type := itype json;
                 description := idescription json;
                 data := JStr EmptyString |}), st)) /\
  (idata json = JUndefined ->
   deserialize env sched json basePath st = fetched env json basePath st).
Proof.
  intros Hc. split_and!.
  - intros Ht. rewrite deserialize_leaf by done. simpl. by rewrite Ht.
  - intros Hn. rewrite deserialize_leaf by done. simpl. by rewrite Hn.
  - intros Hu. apply deserialize_falsy; [done|by rewrite Hu..].
Qed.

Lemma deserialize_file_content_witness :
  deserialize env_fetched (fun _ => []) (json_file "a.txt" (JStr "hi"))
    "templates/hello" st0
  = (Ok (NFile {| name := "a.txt"; type := Some "text";
                  description := Some "a file"; data := JStr "hi" |}), st0) /\
  deserialize env_fetched (fun _ => []) (json_file "b.txt" JNull)
    "templates/hello" st0
  = (Ok (NFile {| name := "b.txt"; type := Some "text";
                  description := Some "a file"; data := JStr EmptyString |}), st0) /\
  deserialize env_fetched (fun _ => []) (json_file "c.txt" JUndefined)
    "templates/hello" st0
  = (Ok (NFile {| name := "c.txt"; type := Some "text";
                  description := Some "a file"; data := JStr "fetched" |}),
     {| trace := [EvFetch "templates/hello/c.txt"]; globals := ∅;
        files := ∅; dirs := ∅ |}).
Proof.
  split_and!.
  - apply (deserialize_file_content env_fetched (fun _ => [])
             (json_file "a.txt" (JStr "hi")) "templates/hello" st0); reflexivity.
  - apply (deserialize_file_content env_fetched (fun _ => [])
             (json_file "b.txt" JNull) "templates/hello" st0); reflexivity.
  - apply (deserialize_file_content env_fetched (fun _ => [])
             (json_file "c.txt" JUndefined) "templates/hello" st0); reflexivity.
Defined.

(** C5 (as stated) fails: inline data that is present and not [null],
    but empty, is not used; the content is fetched. *)
Lemma deserialize_blank_data_is_fetched :
  ichildren (json_file "c.txt" (JStr EmptyString)) = None /\
  idata (json_file "c.txt" (JStr EmptyString)) <> JUndefined /\
  idata (json_file "c.txt" (JStr EmptyString)) <> JNull /\
  deserialize env_fetched (fun _ => []) (json_file "c.txt" (JStr EmptyString))
    "templates/hello" st0
  = (Ok (NFile {| name := "c.txt"; type := Some "text";
                  description := Some "a file"; data := JStr "fetched" |}),
     {| trace := [EvFetch "templates/hello/c.txt"]; globals := ∅;
        files := ∅; dirs := ∅ |}).
Proof. by split_and!. Qed.

(** C10: a node without [children] whose [data] is the empty string is
    handled as a node whose [data] is absent: the inline value is not
    used and no empty file is made without a fetch; the content is
    fetched from [basePath + "/" + name]. *)
Theorem deserialize_empty_string_fetches env sched json basePath st :
  ichildren json = None -> idata json = JStr EmptyString ->
  deserialize env sched json basePath st = fetched env json basePath st /\
  deserialize env sched json basePath st =
  deserialize env sched
    {| iname := iname json; ichildren := None; itype := itype json;
       idata := JUndefined; idescription := idescription json |} basePath st.
Proof.
  intros Hc He.
  rewrite !deserialize_falsy by (done || by rewrite He).
  done.
Qed.

Lemma deserialize_empty_string_fetches_witness :
  deserialize env_fetched (fun _ => []) (json_file "c.txt" (JStr EmptyString))
    "templates/hello" st0
  = fetched env_fetched (json_file "c.txt" (JStr EmptyString)) "templates/hello" st0.
Proof.
  apply (deserialize_empty_string_fetches env_fetched (fun _ => [])
           (json_file "c.txt" (JStr EmptyString)) "templates/hello" st0);
    reflexivity.
Defined.

(** *** [Promise.all] assembles by index *)

Lemma completion_order_covers (n : nat) (sched : list nat) (j : nat) :
  j < n -> j ∈ completion_order n sched.
Proof.
  intros Hj. unfold completion_order. apply elem_of_app.
  destruct (decide (j ∈ remove_dups (filter (fun i => i < n) sched))) as [Hin|Hout];
    [by left|right].
  apply list_elem_of_filter. split; [done|]. apply elem_of_seq. lia.
Qed.

Lemma settle_all_ok {A} (vs : list A) (l : list nat) (slots : list (option A)) :
  length slots = length vs ->
  (forall j v, vs !! j = Some v ->
     slots !! j = Some None \/ slots !! j = Some (Some v)) ->
  exists slots',
    settle slots (omap (fun i => pair i <$> (Ok <$> vs) !! i) l) = Ok slots' /\
    length slots' = length vs /\
    (forall j v, vs !! j = Some v ->
       j ∈ l \/ slots !! j = Some (Some v) -> slots' !! j = Some (Some v)).
Proof.
  revert slots. induction l as [|i l IH]; intros slots Hlen Hinv; simpl.
  - exists slots. split_and!; [done..|].
    intros j v _ [Hj|Hj]; [by apply elem_of_nil in Hj|done].
  - rewrite list_lookup_fmap. destruct (vs !! i) as [vi|] eqn:Hi; simpl.
    + assert (i < length slots) as Hlt.
      { rewrite Hlen. by eapply lookup_lt_Some. }
      destruct (IH (<[i := Some vi]> slots)) as (slots' & Hs & Hl & Hfill).
      * by rewrite length_insert.
      * intros j v Hj. destruct (decide (i = j)) as [<-|Hne].
        -- right. rewrite list_lookup_insert_eq by done. congruence.
        -- rewrite list_lookup_insert_ne by done. by apply Hinv.
      * exists slots'. split_and!; [done..|].
        intros j v Hj Hor. apply Hfill; [done|].
        destruct (decide (i = j)) as [<-|Hne].
        -- right. rewrite list_lookup_insert_eq by done. congruence.
        -- rewrite list_lookup_insert_ne by done.
           destruct Hor as [Hin|Hs']; [|by right].
           apply elem_of_cons in Hin as [->|Hin]; [done|by left].
    + destruct (IH slots Hlen Hinv) as (slots' & Hs & Hl & Hfill).
      exists slots'. split_and!; [done..|].
      intros j v Hj Hor. apply Hfill; [done|].
      destruct Hor as [Hin|Hs']; [|by right].
      apply elem_of_cons in Hin as [->|Hin]; [congruence|by left].
Qed.

Lemma omap_id_Some {A} (vs : list A) : omap id (Some <$> vs) = vs.
Proof. induction vs as [|v vs IH]; csimpl; [done|by f_equal]. Qed.

(** When every promise fulfils, [Promise.all] fulfils with the values in
    index order, whatever the order of completion. *)
Lemma promise_all_ok {A} (sched : list nat) (vs : list A) :
  promise_all sched (Ok <$> vs) = Ok vs.
Proof.
  unfold promise_all. rewrite length_fmap.
  destruct (settle_all_ok vs (completion_order (length vs) sched)
              (replicate (length vs) None)) as (slots' & -> & Hl & Hfill).
  - apply length_replicate.
  - intros j v Hj. left. apply lookup_replicate_2. by eapply lookup_lt_Some.
  - f_equal. assert (slots' = Some <$> vs) as ->; [|apply omap_id_Some].
    apply list_eq. intros j. rewrite list_lookup_fmap.
    destruct (vs !! j) as [v|] eqn:Hj; simpl.
    + apply (Hfill j v Hj). left. apply completion_order_covers.
      by eapply lookup_lt_Some.
    + apply lookup_ge_None. rewrite Hl. by apply lookup_ge_None.
Qed.

Lemma settle_Ok_inv {A} (done : list (nat * Res A)) slots slots' :
  settle slots done = Ok slots' -> Forall (fun p => is_ok p.2 = true) done.
Proof.
  revert slots. induction done as [|[i [v|e]] done IH]; intros slots; simpl.
  - constructor.
  - intros Hs. constructor; [done|by eapply IH].
  - done.
Qed.

Lemma all_ok_fmap {A} (ps : list (Res A)) :
  Forall (fun p => is_ok p = true) ps -> exists vs, ps = Ok <$> vs.
Proof.
  induction 1 as [|[v|e] ps Hp _ [vs ->]]; [by exists []| |done].
  by exists (v :: vs).
Qed.

(** [Promise.all] fulfils only when every promise does, and then with
    the values in index order. *)
Lemma promise_all_Ok_inv {A} (sched : list nat) (ps : list (Res A)) (fs : list A) :
  promise_all sched ps = Ok fs -> ps = Ok <$> fs.
Proof.
  intros Hall.
  assert (Forall (fun p => is_ok p = true) ps) as Hok.
  { unfold promise_all in Hall.
    destruct (settle _ _) as [slots'|] eqn:Hs; [|done].
    apply settle_Ok_inv in Hs. rewrite Forall_forall in Hs.
    apply Forall_lookup. intros j p Hj.
    apply (Hs (j, p)). apply list_elem_of_omap. exists j. split.
    - apply completion_order_covers. by eapply lookup_lt_Some.
    - by rewrite Hj. }
  destruct (all_ok_fmap ps Hok) as [vs ->].
  rewrite promise_all_ok in Hall. by injection Hall as ->.
Qed.

(** *** The tree walk *)

Lemma IFile_nested_ind (P : IFile -> Prop) :
  (forall n t d desc, P (mkIFile n None t d desc)) ->
  (forall n cs t d desc, Forall P cs -> P (mkIFile n (Some cs) t d desc)) ->
  forall json, P json.
Proof.
  intros Hleaf Hdir. fix IH 1. intros [n [cs|] t d desc]; [|apply Hleaf].
  apply Hdir. induction cs as [|c cs IHcs]; constructor; [apply IH|exact IHcs].
Qed.

Lemma foldl_addFile (d : Directory) (fs : list Node) :
  foldl addFile d fs =
  {| dir_name := dir_name d; dir_children := dir_children d ++ fs |}.
Proof.
  revert d. induction fs as [|x fs IH]; intros d; simpl.
  - rewrite app_nil_r. by destruct d.
  - rewrite IH. simpl. by rewrite <- app_assoc.
Qed.

Lemma foldl_project_addFile (p : Project) (fs : list Node) :
  foldl project_addFile p fs =
  {| project_name := project_name p;
     project_children := project_children p ++ fs |}.
Proof.
  revert p. induction fs as [|x fs IH]; intros p; simpl.
  - rewrite app_nil_r. by destruct p.
  - rewrite IH. simpl. by rewrite <- app_assoc.
Qed.

Lemma deserialize_dir env sched json basePath cs st :
  ichildren json = Some cs ->
  deserialize env sched json basePath st =
  (match promise_all (sched cs)
           (start_all (fun x => deserialize env sched x
                                  (basePath +:+ "/" +:+ iname json)) cs st).1 with
   | Ok fs => Ok (NDir (iname json) fs)
   | Throw e => Throw e
   end,
   (start_all (fun x => deserialize env sched x
                          (basePath +:+ "/" +:+ iname json)) cs st).2).
Proof.
  destruct json as [n cs' t d desc]. simpl. intros ->.
  destruct (start_all _ cs st) as [outs st']. simpl.
  destruct (promise_all (sched cs) outs) as [fs|]; [|done].
  by rewrite foldl_addFile.
Qed.

Lemma start_all_cons {A B} (f : A -> M B) x l st :
  start_all f (x :: l) st =
  ((f x st).1 :: (start_all f l (f x st).2).1, (start_all f l (f x st).2).2).
Proof.
  simpl. destruct (f x st) as [o st1]. simpl.
  by destruct (start_all f l st1) as [os st2].
Qed.

(** The i-th promise of the array is the call on the i-th element. *)
Lemma start_all_pointwise {A B} (f : A -> M B) l st :
  Forall2 (fun x o => exists st_x, (f x st_x).1 = o) l (start_all f l st).1.
Proof.
  revert st. induction l as [|x l IH]; intros st; [constructor|].
  rewrite start_all_cons. simpl. constructor; [by exists st|apply IH].
Qed.

Lemma start_all_ext {A B} (f g : A -> M B) l st :
  Forall (fun x => forall st, is_ok (f x st).1 = true -> g x st = f x st) l ->
  Forall (fun o => is_ok o = true) (start_all f l st).1 ->
  start_all g l st = start_all f l st.
Proof.
  intros Hfg. revert st. induction Hfg as [|x l Hx _ IH]; intros st; [done|].
  rewrite !start_all_cons. simpl. intros Hok.
  apply Forall_cons in Hok as [Ho Hos].
  by rewrite (Hx st Ho), (IH _ Hos).
Qed.

Lemma start_all_all_ok {A B} (f : A -> M B) l st :
  Forall (fun x => forall st, is_ok (f x st).1 = true) l ->
  Forall (fun o => is_ok o = true) (start_all f l st).1.
Proof.
  intros Hf. revert st. induction Hf as [|x l Hx _ IH]; intros st; [constructor|].
  rewrite start_all_cons. simpl. constructor; [apply Hx|apply IH].
Qed.

Lemma deserialize_name env sched json basePath st k :
  (deserialize env sched json basePath st).1 = Ok k -> node_name k = iname json.
Proof.
  destruct (ichildren json) as [cs|] eqn:Hc.
  - rewrite (deserialize_dir _ _ _ _ cs) by done. simpl.
    destruct (promise_all _ _) as [fs|]; [|done]. by intros [= <-].
  - rewrite deserialize_leaf by done. simpl.
    destruct (truthy (idata json)); [by intros [= <-]|].
    destruct (decide (idata json = JNull)); [by intros [= <-]|].
    unfold bind, emit, lift, ret. simpl.
    destruct (fetch_text env _); [|done]. by intros [= <-].
Qed.

(** A walk that succeeds under one order of completion gives the same
    tree, and starts the same fetches, under every other. *)
Lemma deserialize_sched_indep env sched sched' json :
  forall basePath st,
    is_ok (deserialize env sched json basePath st).1 = true ->
    deserialize env sched' json basePath st = deserialize env sched json basePath st.
Proof.
  induction json as [n t d desc|n cs t d desc IH] using IFile_nested_ind;
    intros basePath st Hok.
  - by rewrite !deserialize_leaf.
  - rewrite (deserialize_dir env sched _ _ cs) in Hok |- * by done.
    rewrite (deserialize_dir env sched' _ _ cs) by done. simpl in *.
    destruct (promise_all (sched cs) _) as [fs|] eqn:Hall; [|done].
    apply promise_all_Ok_inv in Hall.
    rewrite (start_all_ext (fun x => deserialize env sched x (basePath +:+ "/" +:+ n))).
    + by rewrite Hall, promise_all_ok.
    + eapply Forall_impl; [exact IH|]. intros c Hc st'. apply Hc.
    + rewrite Hall. apply Forall_fmap, Forall_true. done.
Qed.

(** When the network serves every file, the walk succeeds. *)
Lemma deserialize_succeeds env sched json :
  (forall url, is_ok (fetch_text env url) = true) ->
  forall basePath st, is_ok (deserialize env sched json basePath st).1 = true.
Proof.
  intros Hnet.
  induction json as [n t d desc|n cs t d desc IH] using IFile_nested_ind;
    intros basePath st.
  - rewrite deserialize_leaf by done. simpl.
    destruct (truthy d); [done|]. destruct (decide (d = JNull)); [done|].
    unfold bind, emit, lift, ret. simpl.
    specialize (Hnet (basePath +:+ "/" +:+ n)).
    by destruct (fetch_text env _).
  - rewrite (deserialize_dir env sched _ _ cs) by done. simpl.
    destruct (all_ok_fmap
                (start_all (fun x => deserialize env sched x (basePath +:+ "/" +:+ n))
                   cs st).1) as [vs ->].
    + apply start_all_all_ok. eapply Forall_impl; [exact IH|].
      intros c Hc st'. apply Hc.
    + by rewrite promise_all_ok.
Qed.

Lemma deserialize_array_run env sched cs basePath st :
  deserialize_array env sched cs basePath st =
  (promise_all (sched cs)
     (start_all (fun x => deserialize env sched x basePath) cs st).1,
   (start_all (fun x => deserialize env sched x basePath) cs st).2).
Proof.
  unfold deserialize_array. by destruct (start_all _ cs st).
Qed.

(** The values [Promise.all] fulfils with are, index by index, the
    results of the calls on the elements of the array. *)
Lemma siblings_in_order env sched cs basePath st fs :
  promise_all (sched cs)
    (start_all (fun x => deserialize env sched x basePath) cs st).1 = Ok fs ->
  map node_name fs = map iname cs /\
  Forall2 (fun c k => exists st_c,
             (deserialize env sched c basePath st_c).1 = Ok k) cs fs.
Proof.
  intros Hall. apply promise_all_Ok_inv in Hall.
  pose proof (start_all_pointwise
                (fun x => deserialize env sched x basePath) cs st) as Hpt.
  rewrite Hall in Hpt. apply Forall2_fmap_r in Hpt.
  split; [|exact Hpt].
  clear Hall. induction Hpt as [|c k cs fs [st_c Hk] _ IH]; simpl; [done|].
  f_equal; [|exact IH]. by eapply deserialize_name.
Qed.

Lemma deserialize_array_sched_indep env sched sched' cs basePath st :
  is_ok (deserialize_array env sched cs basePath st).1 = true ->
  deserialize_array env sched' cs basePath st =
  deserialize_array env sched cs basePath st.
Proof.
  rewrite !deserialize_array_run. simpl. intros Hok.
  destruct (promise_all (sched cs) _) as [fs|] eqn:Hall; [|done].
  apply promise_all_Ok_inv in Hall.
  rewrite (start_all_ext (fun x => deserialize env sched x basePath)).
  - by rewrite Hall, promise_all_ok.
  - apply Forall_true. intros c st' Hc. by apply deserialize_sched_indep.
  - rewrite Hall. by apply Forall_fmap, Forall_true.
Qed.

(** C6: the children of the directory made for a node, and the children
    added to the project, are the results of deserializing the elements
    of the input array, in the array's order, under every order in which
    the siblings' promises settle: a walk that succeeds under one order
    gives the same tree under any other; and it does succeed when the
    network serves every file. *)
Theorem sibling_order_preserved env sched :
  (forall json basePath st cs k,
     ichildren json = Some cs ->
     (deserialize env sched json basePath st).1 = Ok k ->
     exists kids,
       k = NDir (iname json) kids /\
       map node_name kids = map iname cs /\
       Forall2 (fun c x => exists st_c,
                  (deserialize env sched c (basePath +:+ "/" +:+ iname json) st_c).1
                  = Ok x) cs kids) /\
  (forall json project st json' project' st',
     loadProject env sched json project st = (Ok json', project', st') ->
     exists kids,
       project_children project' = project_children project ++ kids /\
       map node_name kids = map iname (pj_children json) /\
       Forall2 (fun c x => exists st_c,
                  (deserialize env sched c ("templates/" +:+ pj_directory json) st_c).1
                  = Ok x) (pj_children json) kids) /\
  (forall sched' json basePath st,
     is_ok (deserialize env sched json basePath st).1 = true ->
     deserialize env sched' json basePath st = deserialize env sched json basePath st) /\
  (forall sched' json project st,
     is_ok (loadProject env sched json project st).1.1 = true ->
     loadProject env sched' json project st = loadProject env sched json project st) /\
  ((forall url, is_ok (fetch_text env url) = true) ->
   forall json project st,
     is_ok (loadProject env sched json project st).1.1 = true).
Proof.
  split_and!.
  - intros json basePath st cs k Hc. rewrite (deserialize_dir _ _ _ _ cs) by done.
    simpl. destruct (promise_all (sched cs) _) as [fs|] eqn:Hall; [|done].
    intros [= <-]. exists fs. split; [done|]. by eapply siblings_in_order.
  - intros json project st json' project' st'. unfold loadProject.
    rewrite deserialize_array_run.
    destruct (promise_all _ _) as [fs|] eqn:Hall; [|done].
    intros [= <- <- <-]. exists fs. rewrite foldl_project_addFile. simpl.
    split; [done|]. by eapply siblings_in_order.
  - intros sched' json basePath st. apply deserialize_sched_indep.
  - intros sched' json project st. unfold loadProject.
    pose proof (deserialize_array_sched_indep env sched sched'
                  (pj_children json) ("templates/" +:+ pj_directory json) st) as Hi.
    destruct (deserialize_array env sched _ _ st) as [[fs|e] st1]; [|done].
    intros _. by rewrite Hi.
  - intros Hnet json project st. unfold loadProject.
    rewrite deserialize_array_run.
    destruct (all_ok_fmap
                (start_all (fun x => deserialize env sched x
                                       ("templates/" +:+ pj_directory json))
                   (pj_children json) st).1) as [vs ->].
    + apply start_all_all_ok, Forall_true. intros c st'.
      by apply deserialize_succeeds.
    + by rewrite promise_all_ok.
Qed.

Lemma sibling_order_preserved_witness :
  loadProject env_fetched last_first json_root project_empty st0 =
  (Ok json_root,
   {| project_name := "root";
      project_children :=
        [ NFile {| name := "a.txt"; type := Some "text";
                   description := Some "a file"; data := JStr "hi" |};
          NDir "b" [ NFile {| name := "c.txt"; type := Some "text";
                              description := Some "a file";
                              data := JStr "fetched" |};
                     NFile {| name := "d.txt"; type := Some "text";
                              description := Some "a file";
                              data := JStr EmptyString |} ];
          NFile {| name := "e.txt"; type := Some "text";
                   description := Some "a file"; data := JStr "fetched" |} ] |},
   {| trace := [EvFetch "templates/hello/b/c.txt"; EvFetch "templates/hello/e.txt"];
      globals := ∅; files := ∅; dirs := ∅ |}) /\
  loadProject env_fetched last_first json_root project_empty st0 =
  loadProject env_fetched (fun _ => []) json_root project_empty st0.
Proof.
  split; [by vm_compute|].
  symmetry.
  apply (proj1 (proj2 (proj2 (proj2 (sibling_order_preserved env_fetched last_first))))
           (fun _ => []) json_root project_empty st0).
  by vm_compute.
Defined.

(** * Further properties of the dispatcher *)

Lemma input_files_snoc (fs : list SourceFile) (f : SourceFile) :
  input_files (fs ++ [f]) =
  js_assign (input_files fs) (getPath f) {| in_content := getData f |}.
Proof. unfold input_files. by rewrite foldl_snoc. Qed.

(** X1: the request envelope never has an entry named "__proto__"; any
    other path maps to the content of the last file of the list that has
    this path, and a path that no file has is not in the envelope. *)
Theorem input_files_last_wins (fs : list SourceFile) (p : string) :
  input_files fs !! p =
  if decide (p = "__proto__") then None
  else (fun f => {| in_content := getData f |})
         <$> last (filter (fun f => getPath f = p) fs).
Proof.
  induction fs as [|f fs IH] using rev_ind.
  - by destruct (decide (p = "__proto__")).
  - rewrite input_files_snoc, js_assign_lookup, IH, filter_app.
    destruct (decide (p = "__proto__")) as [->|Hp].
    + by destruct (decide (getPath f = "__proto__" /\ getPath f <> "__proto__"))
        as [[? ?]|].
    + destruct (decide (getPath f = p)) as [Hf|Hf].
      * rewrite decide_True by (split; congruence).
        rewrite filter_cons_True, filter_nil by done. by rewrite last_snoc.
      * rewrite decide_False by (by intros [? _]).
        by rewrite filter_cons_False, filter_nil, app_nil_r.
Qed.

(** X2: [compileFiles] touches neither the global namespace nor the file
    store. When the service factory rejects, nothing is posted and the
    state is unchanged; when the backend call rejects, the error is the
    backend's and exactly one request has been posted. *)
Theorem compileFiles_effects env fs from to options st :
  let r := compileFiles env fs from to options st in
  let input := {| in_files := input_files fs; in_options := options |} in
  globals r.2 = globals st /\ files r.2 = files st /\ dirs r.2 = dirs st /\
  (forall e, createCompilerService env from to = Throw e -> r = (Throw e, st)) /\
  (forall svc e,
     createCompilerService env from to = Ok svc ->
     compile svc input = Throw e ->
     r.1 = Throw e /\ trace r.2 = trace st ++ [EvCompile from to input]).
Proof.
  cbv zeta. unfold compileFiles, bind, lift, emit, throw, ret.
  destruct (createCompilerService env from to) as [svc|e0]; simpl.
  - destruct (compile svc _) as [result|e1] eqn:Hc; simpl.
    + destruct (success result); simpl; split_and!; try done.
      all: intros svc' e [= <-]; congruence.
    + split_and!; try done. intros svc' e [= <-]. rewrite Hc. by intros [= <-].
  - split_and!; try done. by intros e [= <-].
Qed.



Lemma compileFiles_effects_witness :
  compileFiles env_unsupported [main_cpp] "wasm" "x86" "-O2" st0 =
  (Throw "createCompilerService: not supported wasm->x86", st0).
Proof.
  refine (proj1 (proj2 (proj2 (proj2
            (compileFiles_effects env_unsupported [main_cpp] "wasm" "x86" "-O2" st0))))
            _ _).
  reflexivity.
Defined.

(** * Further properties of the lazily loaded engines *)

(** What a load of a known engine does, by the answers of the network
    and of the evaluator. *)
Lemma lazyLoad_run env c st :
  lazyLoad env (cap_uri c) st =
  match fetch_text env (baseUrl +:+ cap_uri c) with
  | Throw e => (Throw e, {| trace := trace st ++ [EvFetch (baseUrl +:+ cap_uri c)];
                            globals := globals st; files := files st;
                            dirs := dirs st |})
  | Ok res =>
      match run_code env (load_body c res) with
      | Throw e => (Throw e,
                    {| trace := trace st ++ [EvFetch (baseUrl +:+ cap_uri c);
                                             EvEval (load_body c res)];
                       globals := globals st; files := files st;
                       dirs := dirs st |})
      | Ok objs => (Ok tt, after_load c res objs st)
      end
  end.
Proof.
  unfold lazyLoad. rewrite lazyLoad_exports_cap.
  unfold bind, emit, lift, set_globals, load_body, after_load. simpl.
  destruct (fetch_text env (baseUrl +:+ cap_uri c)) as [res|e0]; simpl; [|done].
  destruct (run_code env _) as [objs|e1]; simpl; by rewrite <- app_assoc.
Qed.

(** X4: a load of a known engine fetches [baseUrl + uri] first. If the
    fetch rejects, or the evaluation of the fetched text throws, the
    error is passed on and the global namespace is left as it was, so the
    engine is still unloaded; otherwise exactly the engine's name is
    bound, to the first value the evaluation returned. *)
Theorem lazyLoad_outcome env c st :
  let url := baseUrl +:+ cap_uri c in
  let r := lazyLoad env (cap_uri c) st in
  files r.2 = files st /\ dirs r.2 = dirs st /\
  (forall e, fetch_text env url = Throw e ->
     r.1 = Throw e /\ globals r.2 = globals st /\
     trace r.2 = trace st ++ [EvFetch url]) /\
  (forall res e, fetch_text env url = Ok res ->
     run_code env (load_body c res) = Throw e ->
     r.1 = Throw e /\ globals r.2 = globals st /\
     trace r.2 = trace st ++ [EvFetch url; EvEval (load_body c res)]) /\
  (forall res objs, fetch_text env url = Ok res ->
     run_code env (load_body c res) = Ok objs ->
     r.1 = Ok tt /\
     globals r.2 = <[cap_global c := default GUndef (objs !! 0)]> (globals st) /\
     trace r.2 = trace st ++ [EvFetch url; EvEval (load_body c res)]).
Proof.
  cbv zeta. rewrite lazyLoad_run.
  destruct (fetch_text env (baseUrl +:+ cap_uri c)) as [res|e0]; simpl.
  - destruct (run_code env (load_body c res)) as [objs|e1] eqn:Hrun; simpl.
    + split_and!; try done.
      * intros res' e [= <-]. by rewrite Hrun.
      * intros res' objs' [= <-]. rewrite Hrun. by intros [= <-].
    + split_and!; try done.
      * intros res' e [= <-]. rewrite Hrun. by intros [= <-].
      * intros res' objs' [= <-]. by rewrite Hrun.
  - split_and!; try done. by intros e [= <-].
Qed.

Lemma lazyLoad_outcome_witness :
  (lazyLoad env_unsupported "lib/binaryen.js" st0).1 = Throw "network error" /\
  globals (lazyLoad env_unsupported "lib/binaryen.js" st0).2 = ∅ /\
  trace (lazyLoad env_unsupported "lib/binaryen.js" st0).2 =
    [EvFetch "https://webassembly.studio/lib/binaryen.js"].
Proof.
  refine (proj1 (proj2 (proj2 (lazyLoad_outcome env_unsupported Binaryen st0))) _ _).
  reflexivity.
Defined.

(** *** Computations that load an engine at most once *)

Lemma once_quiet {A} c (m : M A) :
  (forall st, trace (m st).2 = trace st /\ globals (m st).2 = globals st) ->
  loads_at_most_once c m.
Proof. intros Hq st. left. apply Hq. Qed.

Lemma once_bind {A B} c (m : M A) (k : A -> M B) :
  loads_at_most_once c m -> (forall a, loads_at_most_once c (k a)) ->
  loads_at_most_once c (bind m k).
Proof.
  intros Hm Hk st. unfold bind. specialize (Hm st).
  destruct (m st) as [[a|e] st1]; simpl in *; [|exact Hm].
  specialize (Hk a st1).
  destruct Hm as [[Ht Hg]|(Hno & Hyes & res & Ht)];
    destruct Hk as [[Ht' Hg']|(Hno' & Hyes' & res' & Ht')].
  - left. split; congruence.
  - right. rewrite <- (is_loaded_globals _ st st1 Hg). split_and!; [done..|].
    exists res'. by rewrite Ht', Ht.
  - right. rewrite (is_loaded_globals _ st1 _ Hg'). split_and!; [done..|].
    exists res. by rewrite Ht', Ht.
  - congruence.
Qed.

Lemma once_ensure env c :
  serves env c -> loads_at_most_once c (ensure env (cap_global c) (cap_uri c)).
Proof.
  intros (res & e & rest & Hfetch & Hrun) st.
  unfold ensure, bind, typeof_undefined. simpl.
  destruct (is_loaded (cap_global c) st) eqn:Hld; unfold is_loaded in Hld.
  - left. by destruct (globals st !! cap_global c) as [[|e']|].
  - right. split; [done|].
    pose proof (lazyLoad_run env c st) as Hload. rewrite Hfetch, Hrun in Hload.
    assert ((if match globals st !! cap_global c with
                | Some (GEngine _) => false
                | _ => true
                end
             then lazyLoad env (cap_uri c) else ret tt) st
            = lazyLoad env (cap_uri c) st) as ->.
    { by destruct (globals st !! cap_global c) as [[|e']|]. }
    rewrite Hload. simpl. split; [|by exists res].
    unfold is_loaded. simpl. by rewrite lookup_insert_eq.
Qed.

Lemma once_run_op env op :
  serves env (op_capability op) ->
  loads_at_most_once (op_capability op) (run_op env op).
Proof.
  intros Hs. pose proof (once_ensure env (op_capability op) Hs) as He.
  assert (forall r n t, loads_at_most_once (op_capability op) (parent_newFile r n t))
    as Hnew.
  { intros r n t. apply once_quiet. intros st.
    destruct (loads_only_parent_newFile (op_capability op) r n t st)
      as (extra & Ht & _ & _ & _).
    split; [|apply keeps_globals_parent_newFile].
    unfold parent_newFile, bind, file_get, newFile.
    destruct (files st !! r) as [fo|]; [|done]. simpl.
    destruct (parent fo) as [d|]; [|done].
    by destruct (dirs st !! d). }
  assert (forall x, loads_at_most_once (op_capability op) (engine x)) as Heng.
  { intros x. apply once_quiet. intros st. unfold engine.
    by destruct (globals st !! x) as [[|e]|]. }
  assert (forall A r (g : FileObj -> A),
            loads_at_most_once (op_capability op) (file_get r g)) as Hget.
  { intros A r g. apply once_quiet. intros st. unfold file_get.
    by destruct (files st !! r). }
  destruct op; simpl in *;
    unfold void, disassembleWasm, disassembleWasmWithWabt, assembleWat,
      assembleWatWithWabt, disassembleWasmWithBinaryen,
      convertWasmToAsmWithBinaryen, compileMarkdownToHtml;
    unfold disassembleWasm, assembleWat;
    repeat first
      [ exact He | apply Hnew | apply Heng | apply Hget
      | by apply once_quiet
      | apply once_bind; [|intros ?] ].
Qed.

Lemma loaded_engine_stays env c ops st :
  is_loaded (cap_global c) st = true ->
  Forall (fun op => op_capability op = c) ops ->
  is_loaded (cap_global c) (run_ops env ops st) = true /\
  trace (run_ops env ops st) = trace st.
Proof.
  intros Hld Hops. revert st Hld.
  induction Hops as [|op ops Hop _ IH]; intros st Hld; [done|].
  unfold run_ops. simpl. fold (run_ops env ops (run_op env op st).2).
  subst c. destruct (loads_only_run_op env op st) as (extra & Ht & _ & _ & Hi).
  destruct (Hi Hld) as [-> Hg]. rewrite app_nil_r in Ht.
  rewrite <- (is_loaded_globals _ _ _ Hg) in Hld.
  destruct (IH _ Hld) as [Hld' Ht']. split; [done|congruence].
Qed.

(** X5: when the network serves the resource of an engine and its
    evaluation yields the engine, any sequence of operations that need
    this engine performs either no load at all or exactly one, a fetch
    followed by one evaluation, however many operations there are and
    whether or not they succeed. *)
Theorem engine_loaded_at_most_once env c ops st :
  serves env c ->
  Forall (fun op => op_capability op = c) ops ->
  exists extra,
    trace (run_ops env ops st) = trace st ++ extra /\
    (extra = [] \/
     exists res, extra = [EvFetch (baseUrl +:+ cap_uri c);
                          EvEval (load_body c res)]).
Proof.
  intros Hs Hops. revert st.
  induction Hops as [|op ops Hop Hops IH]; intros st.
  - exists []. split; [by rewrite app_nil_r|by left].
  - unfold run_ops. simpl. fold (run_ops env ops (run_op env op st).2).
    subst c. destruct (once_run_op env op Hs st)
      as [[Ht Hg]|(Hno & Hyes & res & Ht)].
    + destruct (IH (run_op env op st).2) as (extra & Ht' & Hex).
      exists extra. split; [congruence|done].
    + exists [EvFetch (baseUrl +:+ cap_uri (op_capability op));
              EvEval (load_body (op_capability op) res)].
      split; [|right; by exists res].
      destruct (loaded_engine_stays env (op_capability op) ops _ Hyes Hops)
        as [_ Hsame].
      by rewrite Hsame, Ht.
Qed.

Lemma engine_loaded_at_most_once_witness :
  exists extra,
    trace (run_ops env_engines
             [OpDisassembleWasm wasm_magic; OpAssembleWat (JStr "(module)");
              OpDisassembleWasmWithWabt 7; OpDisassembleWasm wasm_magic] st0)
    = trace st0 ++ extra /\
    (extra = [] \/
     exists res, extra = [EvFetch (baseUrl +:+ cap_uri Wabt);
                          EvEval (load_body Wabt res)]).
Proof.
  apply (engine_loaded_at_most_once env_engines Wabt).
  - exists "var engine = {};", engine_stub, []. split; reflexivity.
  - repeat constructor.
Defined.




(** * Further properties of the post-processors *)

Lemma engine_call_store {A} env x uri (f : Engine -> Res A) st :
  let r := (run ensure env x uri; do w <- engine x; lift (f w)) st in
  files r.2 = files st /\ dirs r.2 = dirs st.
Proof.
  cbv zeta. unfold bind.
  destruct (ensure_store env x uri st) as [Hf Hd].
  destruct (ensure env x uri st) as [[[]|e] st1]; simpl in *; [|done].
  unfold engine. by destruct (globals st1 !! x) as [[|w]|].
Qed.

(** The last three statements of a post-processor: create the sibling,
    describe it, fill it. *)
Lemma attach_output st f fo n t desc v :
  files st !! f = Some fo ->
  let r := (do output <- parent_newFile f n t;
            run file_set output (setDescription (Some desc));
            file_set output (setData v)) st in
  match parent fo, parent fo ≫= (fun d => dirs st !! d) with
  | Some d, Some dobj =>
      r.1 = Ok tt /\ trace r.2 = trace st /\ globals r.2 = globals st /\
      files st !! fresh (dom (files st)) = None /\
      files r.2 = <[fresh (dom (files st)) := output_file n t desc v d]> (files st) /\
      dirs r.2 = <[d := {| dname := dname dobj;
                           dchildren := dchildren dobj ++ [fresh (dom (files st))] |}]>
                   (dirs st)
  | _, _ => r = (Throw type_error, st)
  end.
Proof.
  intros Hfo. cbv zeta. unfold parent_newFile, bind, file_get, newFile, file_set.
  rewrite Hfo. destruct (parent fo) as [d|]; simpl; [|done].
  destruct (dirs st !! d) as [dobj|]; simpl; [|done].
  rewrite !alter_insert_eq. split_and!; try done.
  apply not_elem_of_dom, is_fresh.
Qed.

Lemma bind_file_get {A B} f (g : FileObj -> A) (k : A -> M B) st fo :
  files st !! f = Some fo -> bind (file_get f g) k st = k (g fo) st.
Proof. intros Hfo. unfold bind, file_get. by rewrite Hfo. Qed.

Lemma bind_ok {A B} (m : M A) (k : A -> M B) st a st1 :
  m st = (Ok a, st1) -> bind m k st = k a st1.
Proof. intros Hm. unfold bind. by rewrite Hm. Qed.

Lemma bind_throw {A B} (m : M A) (k : A -> M B) st e st1 :
  m st = (Throw e, st1) -> bind m k st = (Throw e, st1).
Proof. intros Hm. unfold bind. by rewrite Hm. Qed.

(** The shape shared by [disassembleWasmWithWabt] and
    [assembleWatWithWabt]: read the content, convert it, attach the
    result. *)
Lemma convert_then_attach {A} (m : JsVal -> M A) (conv : A -> JsVal)
    (desc : string -> string) f st fo suffix t :
  files st !! f = Some fo ->
  (forall v st, files (m v st).2 = files st /\ dirs (m v st).2 = dirs st) ->
  let r := (do b <- file_get f (fun fo => data (file fo));
            do result <- m b;
            do fname <- file_get f (fun fo => name (file fo));
            do output <- parent_newFile f (fname +:+ suffix) t;
            run file_set output (setDescription (Some (desc fname)));
            file_set output (setData (conv result))) st in
  files r.2 !! f = Some fo /\
  (forall e, r.1 = Throw e -> files r.2 = files st /\ dirs r.2 = dirs st) /\
  (r.1 = Ok tt ->
   exists result,
     (m (data (file fo)) st).1 = Ok result /\
     emits_sibling st r.2 f fo suffix t (desc (name (file fo))) (conv result)).
Proof.
  intros Hfo Hm. cbv zeta. rewrite (bind_file_get f _ _ st fo Hfo).
  destruct (Hm (data (file fo)) st) as [Hf Hd].
  destruct (m (data (file fo)) st) as [[result|e] st1] eqn:Hms; simpl in Hf, Hd.
  2: { rewrite (bind_throw _ _ _ _ _ Hms). simpl. by rewrite Hf, Hd, Hfo. }
  rewrite (bind_ok _ _ _ _ _ Hms).
  assert (files st1 !! f = Some fo) as Hfo1 by by rewrite Hf.
  rewrite (bind_file_get f _ _ st1 fo Hfo1).
  pose proof (attach_output st1 f fo (name (file fo) +:+ suffix) t
                (desc (name (file fo))) (conv result) Hfo1) as Hat.
  cbv zeta in Hat.
  destruct (parent fo) as [d|] eqn:Hp; simpl in Hat;
    [destruct (dirs st1 !! d) as [dobj|] eqn:Hdir|].
  - destruct Hat as (Hr & _ & _ & Hfresh & Hfiles & Hdirs).
    rewrite Hr, Hfiles, Hdirs.
    assert (fresh (dom (files st1)) <> f) as Hne by (intros Heq; congruence).
    split_and!.
    + by rewrite lookup_insert_ne.
    + done.
    + intros _. exists result. split; [done|].
      exists (fresh (dom (files st1))), d, dobj.
      rewrite <- Hd, <- Hf. by split_and!.
  - rewrite Hat. simpl. by rewrite Hf, Hd, Hfo.
  - rewrite Hat. simpl. by rewrite Hf, Hd, Hfo.
Qed.

(** X7: [disassembleWasmWithWabt] leaves the source file object as it
    was. When it succeeds, the store has gained exactly one file object,
    named after the source with the suffix ".wat", of type wat, last child
    of the source's parent, described as disassembled with Wabt and
    holding the text that [disassembleWasm] returned for the source's
    content; when it fails, the store is unchanged. *)
Theorem disassembleWasmWithWabt_effect env f st fo :
  files st !! f = Some fo ->
  let r := disassembleWasmWithWabt env f st in
  files r.2 !! f = Some fo /\
  (forall e, r.1 = Throw e -> files r.2 = files st /\ dirs r.2 = dirs st) /\
  (r.1 = Ok tt ->
   exists text,
     (disassembleWasm env (data (file fo)) st).1 = Ok text /\
     emits_sibling st r.2 f fo ".wat" FileType_Wat
       ("Disassembled from " +:+ name (file fo) +:+ " using Wabt.") (JStr text)).
Proof.
  intros Hfo.
  apply (convert_then_attach (disassembleWasm env) JStr
           (fun n => "Disassembled from " +:+ n +:+ " using Wabt.")
           f st fo ".wat" FileType_Wat Hfo).
  intros v st'. apply engine_call_store.
Qed.

Lemma disassembleWasmWithWabt_effect_witness :
  let r := disassembleWasmWithWabt env_engines 0 st_project_wabt in
  files r.2 !! 0 = Some main_wasm /\
  r.1 = Ok tt /\
  files r.2 !! 1 =
    Some (output_file "main.wasm.wat" FileType_Wat
            "Disassembled from main.wasm using Wabt." (JStr "(module)") 0).
Proof.
  split; [|by vm_compute].
  apply (disassembleWasmWithWabt_effect env_engines 0 st_project_wabt main_wasm).
  reflexivity.
Defined.

(** X8: [assembleWatWithWabt] leaves the source file object as it was.
    When it succeeds, the store has gained exactly one file object, named
    after the source with the suffix ".wasm", of type wasm, last child of
    the source's parent, described as assembled with Wabt and holding the
    binary that [assembleWat] returned for the source's content; when it
    fails, the store is unchanged. *)
Theorem assembleWatWithWabt_effect env f st fo :
  files st !! f = Some fo ->
  let r := assembleWatWithWabt env f st in
  files r.2 !! f = Some fo /\
  (forall e, r.1 = Throw e -> files r.2 = files st /\ dirs r.2 = dirs st) /\
  (r.1 = Ok tt ->
   exists binary,
     (assembleWat env (data (file fo)) st).1 = Ok binary /\
     emits_sibling st r.2 f fo ".wasm" FileType_Wasm
       ("Assembled from " +:+ name (file fo) +:+ " using Wabt.") binary).
Proof.
  intros Hfo.
  apply (convert_then_attach (assembleWat env) id
           (fun n => "Assembled from " +:+ n +:+ " using Wabt.")
           f st fo ".wasm" FileType_Wasm Hfo).
  intros v st'. apply engine_call_store.
Qed.

Lemma assembleWatWithWabt_effect_witness :
  let r := assembleWatWithWabt env_engines 0 st_project_wabt in
  files r.2 !! 0 = Some main_wasm /\
  r.1 = Ok tt /\
  files r.2 !! 1 =
    Some (output_file "main.wasm.wasm" FileType_Wasm
            "Assembled from main.wasm using Wabt." wasm_magic 0).
Proof.
  split; [|by vm_compute].
  apply (assembleWatWithWabt_effect env_engines 0 st_project_wabt main_wasm).
  reflexivity.
Defined.

Lemma bind_engine {B} x (k : Engine -> M B) st :
  bind (engine x) k st =
  match globals st !! x with
  | Some (GEngine e) => k e st
  | _ => (Throw type_error, st)
  end.
Proof. unfold bind, engine. by destruct (globals st !! x) as [[|e]|]. Qed.

Lemma bind_lift {A B} (r : Res A) (k : A -> M B) st :
  bind (lift r) k st =
  match r with Ok a => k a st | Throw e => (Throw e, st) end.
Proof. unfold bind, lift. by destruct r. Qed.

Lemma ensure_globals_loaded env x uri st e :
  globals st !! x = Some (GEngine e) -> ensure env x uri st = (Ok tt, st).
Proof. intros Hg. unfold ensure, bind, typeof_undefined. simpl. by rewrite Hg. Qed.

(** What [disassembleWasmWithBinaryen] does once the guard has run,
    leaving the state [st1]. *)
Lemma disassembleWasmWithBinaryen_run env f st st1 fo :
  ensure env "Binaryen" "lib/binaryen.js" st = (Ok tt, st1) ->
  files st1 !! f = Some fo ->
  let desc := "Disassembled from " +:+ name (file fo) +:+ " using Binaryen." in
  let out := fresh (dom (files st1)) in
  disassembleWasmWithBinaryen env f st =
  match globals st1 !! "Binaryen" with
  | Some (GEngine binaryen) =>
      match readBinary binaryen (data (file fo)) with
      | Ok module =>
          match parent fo, parent fo ≫= (fun d => dirs st1 !! d) with
          | Some d, Some dobj =>
              let store v :=
                {| trace := trace st1; globals := globals st1;
                   files := <[out := output_file (name (file fo) +:+ ".wat")
                                        FileType_Wat desc v d]> (files st1);
                   dirs := <[d := {| dname := dname dobj;
                                     dchildren := dchildren dobj ++ [out] |}]>
                             (dirs st1) |} in
              match emitText module with
              | Ok text => (Ok tt, store (JStr text))
              | Throw e => (Throw e, store JNull)
              end
          | _, _ => (Throw type_error, st1)
          end
      | Throw e => (Throw e, st1)
      end
  | _ => (Throw type_error, st1)
  end.
Proof.
  intros Hens Hfo1. cbv zeta. unfold disassembleWasmWithBinaryen.
  rewrite (bind_ok _ _ _ _ _ Hens), (bind_file_get f _ _ st1 fo Hfo1), bind_engine.
  destruct (globals st1 !! "Binaryen") as [[|binaryen]|]; try done.
  rewrite bind_lift.
  destruct (readBinary binaryen (data (file fo))) as [module|]; [|done].
  rewrite (bind_file_get f _ _ st1 fo Hfo1).
  unfold parent_newFile, bind, file_get, newFile, file_set, lift. rewrite Hfo1.
  destruct (parent fo) as [d|]; simpl; [|done].
  destruct (dirs st1 !! d) as [dobj|]; simpl; [|done].
  destruct (emitText module) as [text|e]; simpl; by rewrite ?alter_insert_eq.
Qed.

(** X9: [disassembleWasmWithBinaryen] leaves the source file object as
    it was, and on success the store has gained exactly one sibling
    holding the emitted text. It creates and describes the sibling before
    it asks Binaryen for the text: when [emitText] throws, the call fails
    and the store keeps the new sibling, with no content; every other
    failure leaves the store unchanged. *)
Theorem disassembleWasmWithBinaryen_effect env f st fo :
  files st !! f = Some fo ->
  let r := disassembleWasmWithBinaryen env f st in
  let desc := "Disassembled from " +:+ name (file fo) +:+ " using Binaryen." in
  files r.2 !! f = Some fo /\
  (r.1 = Ok tt ->
   exists binaryen module text,
     globals r.2 !! "Binaryen" = Some (GEngine binaryen) /\
     readBinary binaryen (data (file fo)) = Ok module /\
     emitText module = Ok text /\
     emits_sibling st r.2 f fo ".wat" FileType_Wat desc (JStr text)) /\
  (forall e, r.1 = Throw e ->
     (files r.2 = files st /\ dirs r.2 = dirs st) \/
     exists binaryen module,
       globals r.2 !! "Binaryen" = Some (GEngine binaryen) /\
       readBinary binaryen (data (file fo)) = Ok module /\
       emitText module = Throw e /\
       emits_sibling st r.2 f fo ".wat" FileType_Wat desc JNull) /\
  (forall binaryen module e d dobj,
     globals st !! "Binaryen" = Some (GEngine binaryen) ->
     readBinary binaryen (data (file fo)) = Ok module ->
     emitText module = Throw e ->
     parent fo = Some d -> dirs st !! d = Some dobj ->
     r.1 = Throw e /\
     emits_sibling st r.2 f fo ".wat" FileType_Wat desc JNull).
Proof.
  intros Hfo. cbv zeta.
  assert (forall st1, ensure env "Binaryen" "lib/binaryen.js" st = (Ok tt, st1) ->
          files st1 = files st -> dirs st1 = dirs st ->
          let r := disassembleWasmWithBinaryen env f st in
          let desc := "Disassembled from " +:+ name (file fo) +:+ " using Binaryen." in
          files r.2 !! f = Some fo /\
          (r.1 = Ok tt ->
           exists binaryen module text,
             globals r.2 !! "Binaryen" = Some (GEngine binaryen) /\
             readBinary binaryen (data (file fo)) = Ok module /\
             emitText module = Ok text /\
             emits_sibling st r.2 f fo ".wat" FileType_Wat desc (JStr text)) /\
          (forall e, r.1 = Throw e ->
             (files r.2 = files st /\ dirs r.2 = dirs st) \/
             exists binaryen module,
               globals r.2 !! "Binaryen" = Some (GEngine binaryen) /\
               readBinary binaryen (data (file fo)) = Ok module /\
               emitText module = Throw e /\
               emits_sibling st r.2 f fo ".wat" FileType_Wat desc JNull)) as Hmain.
  { intros st1 Hens Hf Hd. cbv zeta.
    assert (files st1 !! f = Some fo) as Hfo1 by by rewrite Hf.
    rewrite (disassembleWasmWithBinaryen_run env f st st1 fo Hens Hfo1). cbv zeta.
    assert (files st !! fresh (dom (files st1)) = None) as Hfresh.
    { rewrite <- Hf. apply not_elem_of_dom, is_fresh. }
    assert (fresh (dom (files st1)) <> f) as Hne by (intros Heq; congruence).
    destruct (globals st1 !! "Binaryen") as [[|binaryen]|] eqn:Hg;
      try (simpl; rewrite Hf, Hd; split_and!; [done|done|by left]).
    destruct (readBinary binaryen (data (file fo))) as [module|] eqn:Hrb;
      [|simpl; rewrite Hf, Hd; split_and!; [done|done|by left]].
    destruct (parent fo) as [d|] eqn:Hp; simpl;
      [|rewrite Hf, Hd; split_and!; [done|done|by left]].
    destruct (dirs st1 !! d) as [dobj|] eqn:Hdir; simpl;
      [|rewrite Hf, Hd; split_and!; [done|done|by left]].
    rewrite Hd in Hdir.
    destruct (emitText module) as [text|e0] eqn:Hem; simpl; split_and!.
    - rewrite lookup_insert_ne by done. by rewrite Hf.
    - intros _. exists binaryen, module, text. split_and!; try done.
      exists (fresh (dom (files st1))), d, dobj.
      rewrite Hf, Hd. rewrite Hf in Hfresh, Hne. by split_and!.
    - done.
    - rewrite lookup_insert_ne by done. by rewrite Hf.
    - done.
    - intros e [= <-]. right. exists binaryen, module. split_and!; try done.
      exists (fresh (dom (files st1))), d, dobj.
      rewrite Hf, Hd. rewrite Hf in Hfresh, Hne. by split_and!. }
  destruct (ensure_store env "Binaryen" "lib/binaryen.js" st) as [Hf Hd].
  destruct (ensure env "Binaryen" "lib/binaryen.js" st) as [[[]|err] st1] eqn:Hens;
    simpl in Hf, Hd.
  - destruct (Hmain st1 eq_refl Hf Hd) as (H1 & H2 & H3). split_and!; try done.
    intros binaryen module e d dobj Hg Hrb Hem Hp Hdir.
    rewrite (ensure_globals_loaded env _ _ st binaryen Hg) in Hens.
    injection Hens as <-.
    rewrite (disassembleWasmWithBinaryen_run env f st st fo
               (ensure_globals_loaded env _ _ st binaryen Hg) Hfo).
    cbv zeta. rewrite Hg, Hrb, Hp. simpl. rewrite Hdir, Hem. simpl.
    split; [done|].
    exists (fresh (dom (files st))), d, dobj. split_and!; try done.
    + apply not_elem_of_dom, is_fresh.
    + intros Heq. pose proof (is_fresh (dom (files st))) as Hfr.
      rewrite Heq in Hfr. apply Hfr. apply elem_of_dom. by exists fo.
  - unfold disassembleWasmWithBinaryen. rewrite (bind_throw _ _ _ _ _ Hens). simpl.
    rewrite Hf, Hd. split_and!; try done.
    + intros e _. by left.
    + intros binaryen module e d dobj Hg.
      by rewrite (ensure_globals_loaded env _ _ st binaryen Hg) in Hens.
Qed.

Lemma disassembleWasmWithBinaryen_effect_witness :
  let r := disassembleWasmWithBinaryen env_engines 0 st_project_no_text in
  r.1 = Throw "emitText failed" /\
  emits_sibling st_project_no_text r.2 0 main_wasm ".wat" FileType_Wat
    "Disassembled from main.wasm using Binaryen." JNull.
Proof.
  refine (proj2 (proj2 (proj2
            (disassembleWasmWithBinaryen_effect env_engines 0 st_project_no_text
               main_wasm _)))
            engine_no_text {| emitText := Throw "emitText failed";
                              emitAsmjs := Ok "function asmFunc() {}" |}
            "emitText failed" 0 {| dname := "out"; dchildren := [0] |} _ _ _ _ _);
    reflexivity.
Defined.

(** *** The store only grows *)

Lemma store_grows_same st st' :
  files st' = files st -> dirs st' = dirs st -> store_grows st st'.
Proof.
  intros Hf Hd. split; [by rewrite Hf|].
  intros d dobj Hdir. exists dobj. by rewrite Hd.
Qed.

Lemma store_grows_trans st1 st2 st3 :
  store_grows st1 st2 -> store_grows st2 st3 -> store_grows st1 st3.
Proof.
  intros [Hf1 Hd1] [Hf2 Hd2]. split; [by etrans|].
  intros d dobj Hdir.
  destruct (Hd1 d dobj Hdir) as (dobj2 & Hdir2 & Hn2 & Hp2).
  destruct (Hd2 d dobj2 Hdir2) as (dobj3 & Hdir3 & Hn3 & Hp3).
  exists dobj3. split_and!; [done|congruence|by etrans].
Qed.

Lemma store_grows_insert st st' out fo' d dobj :
  files st !! out = None -> dirs st !! d = Some dobj ->
  files st' = <[out := fo']> (files st) ->
  dirs st' = <[d := {| dname := dname dobj;
                       dchildren := dchildren dobj ++ [out] |}]> (dirs st) ->
  store_grows st st'.
Proof.
  intros Hout Hdir Hf Hd. split.
  - rewrite Hf. by apply insert_subseteq.
  - intros d0 dobj0 Hdir0. rewrite Hd.
    destruct (decide (d = d0)) as [<-|Hne].
    + rewrite lookup_insert_eq. eexists; split; [done|]. simpl.
      assert (dobj0 = dobj) as -> by congruence.
      split; [done|]. by apply prefix_app_r.
    + rewrite lookup_insert_ne by done. by exists dobj0.
Qed.

Lemma emits_sibling_grows st st' f fo suffix t desc v :
  emits_sibling st st' f fo suffix t desc v -> store_grows st st'.
Proof.
  intros (out & d & dobj & Hout & _ & _ & Hdir & Hf & Hd).
  by eapply store_grows_insert.
Qed.

Lemma convert_then_attach_grows {A} (m : JsVal -> M A) (conv : A -> JsVal)
    (desc : string -> string) f st suffix t :
  (forall v st, files (m v st).2 = files st /\ dirs (m v st).2 = dirs st) ->
  store_grows st
    ((do b <- file_get f (fun fo => data (file fo));
      do result <- m b;
      do fname <- file_get f (fun fo => name (file fo));
      do output <- parent_newFile f (fname +:+ suffix) t;
      run file_set output (setDescription (Some (desc fname)));
      file_set output (setData (conv result))) st).2.
Proof.
  intros Hm. destruct (files st !! f) as [fo|] eqn:Hfo.
  - destruct (convert_then_attach m conv desc f st fo suffix t Hfo Hm)
      as (_ & Hfail & Hok).
    match goal with
    | |- store_grows _ (?r).2 => destruct r as [[[]|e] st']
    end; simpl in *.
    + destruct (Hok eq_refl) as (result & _ & Hsib).
      by eapply emits_sibling_grows.
    + destruct (Hfail e eq_refl). by apply store_grows_same.
  - unfold bind at 1. unfold file_get at 1. rewrite Hfo. by apply store_grows_same.
Qed.

Lemma convertWasmToAsmWithBinaryen_grows env f st :
  store_grows st (convertWasmToAsmWithBinaryen env f st).2.
Proof.
  unfold convertWasmToAsmWithBinaryen.
  destruct (ensure_store env "Binaryen" "lib/binaryen.js" st) as [Hf Hd].
  destruct (ensure env "Binaryen" "lib/binaryen.js" st) as [[[]|err] st1] eqn:Hens;
    simpl in Hf, Hd.
  2: { rewrite (bind_throw _ _ _ _ _ Hens). by apply store_grows_same. }
  rewrite (bind_ok _ _ _ _ _ Hens).
  destruct (files st1 !! f) as [fo|] eqn:Hfo1.
  2: { unfold bind, file_get. rewrite Hfo1. by apply store_grows_same. }
  rewrite (bind_file_get f _ _ st1 fo Hfo1), bind_engine.
  destruct (globals st1 !! "Binaryen") as [[|binaryen]|];
    try by apply store_grows_same.
  rewrite bind_lift.
  destruct (readBinary binaryen (data (file fo))) as [module|];
    [|by apply store_grows_same].
  rewrite bind_lift.
  destruct (emitAsmjs module) as [text|]; [|by apply store_grows_same].
  rewrite (bind_file_get f _ _ st1 fo Hfo1).
  pose proof (attach_output st1 f fo (name (file fo) +:+ ".asm.js")
                FileType_JavaScript
                ("Converted from " +:+ name (file fo) +:+ " using Binaryen.")
                (JStr text) Hfo1) as Hat.
  cbv zeta in Hat.
  destruct (parent fo) as [d|]; simpl in Hat;
    [destruct (dirs st1 !! d) as [dobj|] eqn:Hdir|].
  - destruct Hat as (_ & _ & _ & Hfresh & Hfiles & Hdirs).
    rewrite Hf in Hfresh, Hfiles, Hdirs. rewrite Hd in Hdirs, Hdir.
    by eapply store_grows_insert.
  - rewrite Hat. by apply store_grows_same.
  - rewrite Hat. by apply store_grows_same.
Qed.

Lemma disassembleWasmWithBinaryen_grows env f st :
  store_grows st (disassembleWasmWithBinaryen env f st).2.
Proof.
  destruct (ensure_store env "Binaryen" "lib/binaryen.js" st) as [Hf Hd].
  destruct (ensure env "Binaryen" "lib/binaryen.js" st) as [[[]|err] st1] eqn:Hens;
    simpl in Hf, Hd.
  2: { unfold disassembleWasmWithBinaryen.
       rewrite (bind_throw _ _ _ _ _ Hens). by apply store_grows_same. }
  destruct (files st1 !! f) as [fo|] eqn:Hfo1.
  2: { unfold disassembleWasmWithBinaryen. rewrite (bind_ok _ _ _ _ _ Hens).
       unfold bind, file_get. rewrite Hfo1. by apply store_grows_same. }
  rewrite (disassembleWasmWithBinaryen_run env f st st1 fo Hens Hfo1). cbv zeta.
  destruct (globals st1 !! "Binaryen") as [[|binaryen]|];
    try by apply store_grows_same.
  destruct (readBinary binaryen (data (file fo))) as [module|];
    [|by apply store_grows_same].
  destruct (parent fo) as [d|]; simpl; [|by apply store_grows_same].
  destruct (dirs st1 !! d) as [dobj|] eqn:Hdir; simpl; [|by apply store_grows_same].
  assert (files st !! fresh (dom (files st1)) = None) as Hfresh.
  { rewrite <- Hf. apply not_elem_of_dom, is_fresh. }
  rewrite Hd in Hdir.
  destruct (emitText module) as [text|e]; simpl;
    (eapply store_grows_insert; [exact Hfresh|exact Hdir|simpl; by rewrite Hf
                                |simpl; by rewrite Hd]).
Qed.

Lemma run_op_grows env op st : store_grows st (run_op env op st).2.
Proof.
  destruct op; simpl.
  - unfold void, bind.
    destruct (engine_call_store env "wabt" "lib/libwabt.js"
                (fun e => wabt_disassemble e buffer) st) as [Hf Hd].
    fold (disassembleWasm env buffer) in Hf, Hd.
    destruct (disassembleWasm env buffer st) as [[a|e] st1];
      by apply store_grows_same.
  - apply (convert_then_attach_grows (disassembleWasm env) JStr
             (fun n => "Disassembled from " +:+ n +:+ " using Wabt.")).
    intros v st'. apply engine_call_store.
  - unfold void, bind.
    destruct (engine_call_store env "wabt" "lib/libwabt.js"
                (fun e => wabt_assemble e wat) st) as [Hf Hd].
    fold (assembleWat env wat) in Hf, Hd.
    destruct (assembleWat env wat st) as [[a|e] st1]; by apply store_grows_same.
  - apply (convert_then_attach_grows (assembleWat env) id
             (fun n => "Assembled from " +:+ n +:+ " using Wabt.")).
    intros v st'. apply engine_call_store.
  - apply disassembleWasmWithBinaryen_grows.
  - apply convertWasmToAsmWithBinaryen_grows.
  - unfold void, bind.
    destruct (engine_call_store env "showdown" "lib/showdown.min.js"
                (fun e => showdown_makeHtml e src) st) as [Hf Hd].
    fold (compileMarkdownToHtml env src) in Hf, Hd.
    destruct (compileMarkdownToHtml env src st) as [[a|e] st1];
      by apply store_grows_same.
Qed.

(** X10: no sequence of post-processing operations removes or changes a
    file object that exists, whatever the operations, their order and
    their outcomes: every file object is kept as it is, and every
    directory keeps its name and its children, in order, with new
    children only added after them. *)
Theorem operations_only_add_files env ops st :
  store_grows st (run_ops env ops st).
Proof.
  revert st. induction ops as [|op ops IH]; intros st.
  - by apply store_grows_same.
  - unfold run_ops. simpl. fold (run_ops env ops (run_op env op st).2).
    eapply store_grows_trans; [apply run_op_grows|apply IH].
Qed.

(** * Further properties of the project deserializer *)

Lemma started_nil st : started [] st = st.
Proof. destruct st. unfold started. simpl. by rewrite app_nil_r. Qed.

Lemma started_app urls1 urls2 st :
  started urls2 (started urls1 st) = started (urls1 ++ urls2) st.
Proof. unfold started. simpl. by rewrite fmap_app, app_assoc. Qed.

Lemma fetch_urls_dir json basePath cs :
  ichildren json = Some cs ->
  fetch_urls json basePath =
  flat_map (fun c => fetch_urls c (basePath +:+ "/" +:+ iname json)) cs.
Proof. destruct json. simpl. by intros ->. Qed.

Lemma fetch_urls_leaf json basePath :
  ichildren json = None ->
  fetch_urls json basePath =
  if truthy (idata json) then []
  else if decide (idata json = JNull) then []
  else [basePath +:+ "/" +:+ iname json].
Proof. destruct json. simpl. by intros ->. Qed.

Lemma start_all_started {A B} (f : A -> M B) (urls : A -> list string) l st :
  Forall (fun x => forall st, (f x st).2 = started (urls x) st) l ->
  (start_all f l st).2 = started (flat_map urls l) st.
Proof.
  intros Hf. revert st. induction Hf as [|x l Hx _ IH]; intros st.
  - by rewrite started_nil.
  - rewrite start_all_cons. simpl. by rewrite IH, Hx, started_app.
Qed.

Lemma deserialize_started env sched json :
  forall basePath st,
    (deserialize env sched json basePath st).2 = started (fetch_urls json basePath) st.
Proof.
  induction json as [n t d desc|n cs t d desc IH] using IFile_nested_ind;
    intros basePath st.
  - rewrite deserialize_leaf, fetch_urls_leaf by done. simpl.
    destruct (truthy d); [by rewrite started_nil|].
    destruct (decide (d = JNull)); [by rewrite started_nil|].
    unfold bind, emit, lift, ret. simpl. by destruct (fetch_text env _).
  - rewrite (deserialize_dir env sched _ _ cs), (fetch_urls_dir _ _ cs) by done.
    simpl. apply (start_all_started _ (fun c => fetch_urls c (basePath +:+ "/" +:+ n))).
    eapply Forall_impl; [exact IH|]. intros c Hc st'. apply Hc.
Qed.

(** X11: the fetches that [loadProject] starts are those of the files of
    the tree whose data is neither truthy nor [null], each at
    "templates/" + directory + the path of the file, in depth-first
    order. They are all started, whatever the network answers and in
    whatever order the answers arrive: a fetch that rejects does not keep
    a later sibling from being fetched. Nothing else of the state
    changes. *)
Theorem loadProject_starts_every_fetch env sched json project st :
  (loadProject env sched json project st).2 = started (project_urls json) st /\
  (forall basePath node,
     (deserialize env sched node basePath st).2 =
     started (fetch_urls node basePath) st).
Proof.
  split; [|intros; apply deserialize_started].
  unfold loadProject. rewrite deserialize_array_run.
  assert ((start_all (fun x => deserialize env sched x
                                 ("templates/" +:+ pj_directory json))
             (pj_children json) st).2 = started (project_urls json) st) as Hst.
  { apply (start_all_started _
             (fun c => fetch_urls c ("templates/" +:+ pj_directory json))).
    apply Forall_true. intros c st'. apply deserialize_started. }
  by destruct (promise_all _ _).
Qed.

Lemma loadProject_starts_every_fetch_witness :
  (loadProject env_e_missing last_first json_root project_empty st0).2 =
  started ["templates/hello/b/c.txt"; "templates/hello/e.txt"] st0.
Proof.
  exact (proj1 (loadProject_starts_every_fetch env_e_missing last_first
                  json_root project_empty st0)).
Defined.

Lemma elem_of_flat_map {A B} (f : A -> list B) (l : list A) (y : B) :
  y ∈ flat_map f l <-> exists x, x ∈ l /\ y ∈ f x.
Proof.
  rewrite list_elem_of_In, in_flat_map. split.
  - intros (x & Hx & Hy). exists x. by rewrite !list_elem_of_In.
  - intros (x & Hx & Hy). exists x. by rewrite <- !list_elem_of_In.
Qed.

Lemma settle_Throw_inv {A} (done : list (nat * Res A)) slots e :
  settle slots done = Throw e -> exists i, (i, Throw e) ∈ done.
Proof.
  revert slots. induction done as [|[i [v|e']] done IH]; intros slots; simpl.
  - done.
  - intros Hs. destruct (IH _ Hs) as [j Hj]. exists j. by right.
  - intros [= ->]. exists i. by left.
Qed.

(** [Promise.all] rejects with the error of one of its promises. *)
Lemma promise_all_Throw_inv {A} (sched : list nat) (ps : list (Res A)) e :
  promise_all sched ps = Throw e -> Throw e ∈ ps.
Proof.
  unfold promise_all. destruct (settle _ _) as [slots'|e'] eqn:Hs; [done|].
  intros [= ->]. apply settle_Throw_inv in Hs as [i Hi].
  apply list_elem_of_omap in Hi as (j & _ & Hj).
  destruct (ps !! j) as [p|] eqn:Hp; simpl in Hj; [|done].
  injection Hj as <- ->. by eapply list_elem_of_lookup_2.
Qed.

Lemma deserialize_error env sched json :
  forall basePath st e,
    (deserialize env sched json basePath st).1 = Throw e ->
    exists url, url ∈ fetch_urls json basePath /\ fetch_text env url = Throw e.
Proof.
  induction json as [n t d desc|n cs t d desc IH] using IFile_nested_ind;
    intros basePath st e.
  - rewrite deserialize_leaf, fetch_urls_leaf by done. simpl.
    destruct (truthy d); [done|]. destruct (decide (d = JNull)); [done|].
    unfold bind, emit, lift, ret. simpl.
    destruct (fetch_text env _) as [text|e'] eqn:Hfetch; [done|].
    intros [= ->]. eexists. split; [by apply list_elem_of_singleton|done].
  - rewrite (deserialize_dir env sched _ _ cs), (fetch_urls_dir _ _ cs) by done.
    simpl. destruct (promise_all _ _) as [fs|e'] eqn:Hall; [done|].
    intros [= ->]. apply promise_all_Throw_inv in Hall.
    pose proof (start_all_pointwise
                  (fun x => deserialize env sched x (basePath +:+ "/" +:+ n)) cs st)
      as Hpt.
    apply list_elem_of_lookup in Hall as [i Hi].
    destruct (Forall2_lookup_r _ _ _ _ _ Hpt Hi) as (c & Hc & st_c & Hout).
    rewrite Forall_forall in IH.
    destruct (IH c (list_elem_of_lookup_2 _ _ _ Hc) _ _ _ Hout) as (url & Hurl & Hf).
    exists url. split; [|done]. apply elem_of_flat_map. exists c.
    split; [by eapply list_elem_of_lookup_2|done].
Qed.

Lemma deserialize_ok_iff env sched json :
  forall basePath st,
    is_ok (deserialize env sched json basePath st).1 = true <->
    Forall (fun url => is_ok (fetch_text env url) = true) (fetch_urls json basePath).
Proof.
  induction json as [n t d desc|n cs t d desc IH] using IFile_nested_ind;
    intros basePath st.
  - rewrite deserialize_leaf, fetch_urls_leaf by done. simpl.
    destruct (truthy d); [by split|]. destruct (decide (d = JNull)); [by split|].
    unfold bind, emit, lift, ret. simpl. rewrite Forall_singleton.
    by destruct (fetch_text env _).
  - rewrite (deserialize_dir env sched _ _ cs), (fetch_urls_dir _ _ cs) by done.
    simpl. rewrite Forall_forall in IH. split.
    + destruct (promise_all _ _) as [fs|] eqn:Hall; [|done]. intros _.
      apply promise_all_Ok_inv in Hall.
      pose proof (start_all_pointwise
                    (fun x => deserialize env sched x (basePath +:+ "/" +:+ n)) cs st)
        as Hpt.
      rewrite Hall in Hpt. apply Forall2_fmap_r in Hpt.
      apply Forall_forall. intros url Hurl.
      apply elem_of_flat_map in Hurl as (c & Hc & Hurl).
      apply list_elem_of_lookup in Hc as [i Hi].
      destruct (Forall2_lookup_l _ _ _ _ _ Hpt Hi) as (k & _ & st_c & Hk).
      assert (is_ok (deserialize env sched c (basePath +:+ "/" +:+ n) st_c).1 = true)
        as Hok by by rewrite Hk.
      apply (IH c (list_elem_of_lookup_2 _ _ _ Hi)) in Hok.
      rewrite Forall_forall in Hok. by apply Hok.
    + intros Hurls.
      destruct (all_ok_fmap
                  (start_all (fun x => deserialize env sched x (basePath +:+ "/" +:+ n))
                     cs st).1) as [vs ->]; [|by rewrite promise_all_ok].
      apply start_all_all_ok. apply Forall_forall. intros c Hc st'.
      apply (IH c Hc). apply Forall_forall. intros url Hurl.
      rewrite Forall_forall in Hurls. apply Hurls.
      apply elem_of_flat_map. by exists c.
Qed.

(** X12: [loadProject] succeeds exactly when every fetch it starts
    succeeds. When it fails, its error is the error of one of these
    fetches, the project has been renamed and no child has been attached
    to it; when it succeeds, it returns the JSON it was given. *)
Theorem loadProject_outcome env sched json project st :
  let r := loadProject env sched json project st in
  (is_ok r.1.1 = true <->
   Forall (fun url => is_ok (fetch_text env url) = true) (project_urls json)) /\
  (forall e, r.1.1 = Throw e ->
     (exists url, url ∈ project_urls json /\ fetch_text env url = Throw e) /\
     r.1.2 = {| project_name := pj_name json;
                project_children := project_children project |}) /\
  (forall j, r.1.1 = Ok j -> j = json /\ project_name r.1.2 = pj_name json).
Proof.
  cbv zeta. unfold loadProject, project_urls. rewrite deserialize_array_run.
  set (bp := "templates/" +:+ pj_directory json).
  pose proof (start_all_pointwise (fun x => deserialize env sched x bp)
                (pj_children json) st) as Hpt.
  destruct (promise_all _ _) as [fs|e0] eqn:Hall; simpl.
  - split_and!; [|done|].
    + split; [intros _|done].
      apply promise_all_Ok_inv in Hall. rewrite Hall in Hpt.
      apply Forall2_fmap_r in Hpt.
      apply Forall_forall. intros url Hurl.
      apply elem_of_flat_map in Hurl as (c & Hc & Hurl).
      apply list_elem_of_lookup in Hc as [i Hi].
      destruct (Forall2_lookup_l _ _ _ _ _ Hpt Hi) as (k & _ & st_c & Hk).
      assert (is_ok (deserialize env sched c bp st_c).1 = true) as Hok
        by by rewrite Hk.
      apply deserialize_ok_iff in Hok. rewrite Forall_forall in Hok. by apply Hok.
    + intros j [= <-]. by rewrite foldl_project_addFile.
  - split_and!; [| |done].
    + split; [done|]. intros Hurls. exfalso.
      destruct (all_ok_fmap
                  (start_all (fun x => deserialize env sched x bp)
                     (pj_children json) st).1) as [vs Hvs].
      * apply start_all_all_ok. apply Forall_forall. intros c Hc st'.
        apply deserialize_ok_iff. apply Forall_forall. intros url Hurl.
        rewrite Forall_forall in Hurls. apply Hurls.
        apply elem_of_flat_map. by exists c.
      * by rewrite Hvs, promise_all_ok in Hall.
    + intros e [= <-]. split; [|done].
      apply promise_all_Throw_inv in Hall.
      apply list_elem_of_lookup in Hall as [i Hi].
      destruct (Forall2_lookup_r _ _ _ _ _ Hpt Hi) as (c & Hc & st_c & Hout).
      destruct (deserialize_error env sched c bp st_c e0 Hout) as (url & Hurl & Hf).
      exists url. split; [|done]. apply elem_of_flat_map. exists c.
      split; [by eapply list_elem_of_lookup_2|done].
Qed.

Lemma loadProject_outcome_witness :
  (exists url, url ∈ project_urls json_root /\
               fetch_text env_e_missing url = Throw "404 e.txt") /\
  (loadProject env_e_missing last_first json_root project_empty st0).1.2 =
  {| project_name := "root"; project_children := [] |}.
Proof.
  apply (proj1 (proj2 (loadProject_outcome env_e_missing last_first json_root
                         project_empty st0)) "404 e.txt").
  by vm_compute.
Defined.

Lemma flat_map_nil {A B} (f : A -> list B) (l : list A) :
  Forall (fun x => f x = []) l -> flat_map f l = [].
Proof. induction 1 as [|x l Hx _ IH]; simpl; [done|]. by rewrite Hx, IH. Qed.

Lemma inline_only_no_urls json :
  forall basePath, inline_only json = true -> fetch_urls json basePath = [].
Proof.
  induction json as [n t d desc|n cs t d desc IH] using IFile_nested_ind;
    intros basePath; simpl.
  - destruct (truthy d); [done|]. simpl. intros Hn.
    apply bool_decide_eq_true in Hn. by destruct (decide (d = JNull)).
  - intros Hall. apply flat_map_nil. rewrite Forall_forall in IH |- *.
    intros c Hc. apply (IH c Hc). rewrite forallb_forall in Hall.
    apply Hall. by apply list_elem_of_In.
Qed.

(** X13: a project all of whose files carry truthy or [null] data is
    loaded without any network access and cannot fail, whatever the
    network would answer and whatever the order of completion: the state
    is unchanged and the project gains one child per top-level node, in
    order. *)
Theorem loadProject_inline_needs_no_network env sched json project st :
  forallb inline_only (pj_children json) = true ->
  exists kids,
    loadProject env sched json project st =
    (Ok json,
     {| project_name := pj_name json;
        project_children := project_children project ++ kids |}, st) /\
    map node_name kids = map iname (pj_children json).
Proof.
  intros Hin. unfold loadProject. rewrite deserialize_array_run.
  set (bp := "templates/" +:+ pj_directory json).
  assert (Forall (fun c => fetch_urls c bp = []) (pj_children json)) as Hno.
  { apply Forall_forall. intros c Hc. apply inline_only_no_urls.
    rewrite forallb_forall in Hin. apply Hin. by apply list_elem_of_In. }
  assert ((start_all (fun x => deserialize env sched x bp) (pj_children json) st).2
          = st) as Hst.
  { rewrite (start_all_started _ (fun c => fetch_urls c bp)).
    - rewrite (flat_map_nil _ _ Hno). apply started_nil.
    - apply Forall_true. intros c st'. apply deserialize_started. }
  destruct (all_ok_fmap
              (start_all (fun x => deserialize env sched x bp)
                 (pj_children json) st).1) as [vs Hvs].
  { apply start_all_all_ok. eapply Forall_impl; [exact Hno|].
    intros c Hc st'. apply deserialize_ok_iff. by rewrite Hc. }
  pose proof (siblings_in_order env sched (pj_children json) bp st vs) as Hsib.
  rewrite Hvs, promise_all_ok in Hsib |- *. rewrite Hst.
  exists vs. rewrite foldl_project_addFile. split; [done|]. by apply Hsib.
Qed.

Lemma loadProject_inline_needs_no_network_witness :
  exists kids,
    loadProject env_offline last_first json_inline project_empty st0 =
    (Ok json_inline,
     {| project_name := "root"; project_children := [] ++ kids |}, st0) /\
    map node_name kids = ["a.txt"; "b"; "src"].
Proof.
  apply (loadProject_inline_needs_no_network env_offline last_first json_inline
           project_empty st0).
  reflexivity.
Defined.

Lemma start_all_outcomes {A B} (f : A -> M B) l st st0 :
  Forall (fun x => forall st st', (f x st).1 = (f x st').1) l ->
  (start_all f l st).1 = map (fun x => (f x st0).1) l.
Proof.
  intros Hf. revert st. induction Hf as [|x l Hx _ IH]; intros st; [done|].
  rewrite start_all_cons. simpl. by rewrite IH, (Hx st st0).
Qed.

(** The outcome of a walk does not depend on the state it starts in. *)
Lemma deserialize_outcome_state env sched json :
  forall basePath st st',
    (deserialize env sched json basePath st).1 =
    (deserialize env sched json basePath st').1.
Proof.
  induction json as [n t d desc|n cs t d desc IH] using IFile_nested_ind;
    intros basePath st st'.
  - rewrite !deserialize_leaf by done. simpl.
    destruct (truthy d); [done|]. destruct (decide (d = JNull)); [done|].
    unfold bind, emit, lift, ret. simpl. by destruct (fetch_text env _).
  - rewrite !(deserialize_dir env sched _ _ cs) by done. simpl.
    rewrite (start_all_outcomes _ cs st st), (start_all_outcomes _ cs st' st); [done|..];
      (eapply Forall_impl; [exact IH|]; intros c Hc st1 st2; apply Hc).
Qed.

Lemma promise_all_first_rejection {A} (ps : list (Res A)) i rest e :
  ps !! i = Some (Throw e) -> i ∉ rest ->
  promise_all (i :: rest) ps = Throw e.
Proof.
  intros Hi Hrest. unfold promise_all, completion_order.
  assert (i < length ps) as Hlt by by eapply lookup_lt_Some.
  rewrite filter_cons_True by done. simpl.
  destruct (decide_rel elem_of i (filter (fun j => j < length ps) rest))
    as [Hin|_].
  { apply list_elem_of_filter in Hin as [_ Hin]. done. }
  simpl. by rewrite Hi.
Qed.

(** X14: which error a failed load reports depends on the order in which
    the siblings settle: when the promise of the sibling at index [i]
    rejects and settles first, [deserialize] of the array, and
    [loadProject] with it, reject with that sibling's error, whatever the
    other siblings do. *)
Theorem first_settled_rejection_wins env sched cs basePath st i rest c e :
  sched cs = i :: rest -> i ∉ rest ->
  cs !! i = Some c ->
  (deserialize env sched c basePath st).1 = Throw e ->
  (deserialize_array env sched cs basePath st).1 = Throw e /\
  (forall json project,
     pj_children json = cs ->
     basePath = "templates/" +:+ pj_directory json ->
     (loadProject env sched json project st).1.1 = Throw e).
Proof.
  intros Hs Hrest Hc He.
  assert ((deserialize_array env sched cs basePath st).1 = Throw e) as Harr.
  { rewrite deserialize_array_run. simpl. rewrite Hs.
    apply promise_all_first_rejection; [|done].
    rewrite (start_all_outcomes _ cs st st).
    - rewrite list_lookup_fmap, Hc. simpl. by rewrite He.
    - apply Forall_true. intros x st1 st2. apply deserialize_outcome_state. }
  split; [done|]. intros json project Hcs ->. unfold loadProject. rewrite Hcs.
  by destruct (deserialize_array env sched cs _ st) as [[fs|e'] st'];
    simpl in *; [|injection Harr as ->].
Qed.

Lemma first_settled_rejection_wins_witness :
  (loadProject env_offline (first_settles 1) json_two_missing project_empty st0).1.1
  = Throw "offline: templates/hello/b.txt" /\
  (loadProject env_offline (first_settles 0) json_two_missing project_empty st0).1.1
  = Throw "offline: templates/hello/a.txt".
Proof.
  split.
  - refine (proj2 (first_settled_rejection_wins env_offline (first_settles 1)
                     (pj_children json_two_missing) "templates/hello" st0 1 []
                     (json_file "b.txt" JUndefined) _ _ _ _ _)
              json_two_missing project_empty _ _);
      first [reflexivity | by apply not_elem_of_nil].
  - refine (proj2 (first_settled_rejection_wins env_offline (first_settles 0)
                     (pj_children json_two_missing) "templates/hello" st0 0 []
                     (json_file "a.txt" JUndefined) _ _ _ _ _)
              json_two_missing project_empty _ _);
      first [reflexivity | by apply not_elem_of_nil].
Defined.
